(** * JSON tree explorer: path addressing, search, document routing and
    the rendering session of [json_debug.py]

    A shallow embedding of the class [JsonTreeExplorer].  Python values
    loaded by [json.load] are the inductive type [json]; the [ttk.Treeview]
    widget is a forest of items carrying an item id, a text, a values
    column and tags; the fields of the explorer that the document viewer
    mutates are a record that every method takes and returns; a Python
    exception is a [Raise] in the [result] type.

    Conventions of the model:
    - a string is a sequence of characters with codes below 256, and the
      character classes ([isdigit], [lower], the white space [int] strips)
      are those of the characters below code 128;
    - [int] has no limit on the number of digits;
    - the widget returns the text and the values column of an item as the
      strings that were stored;
    - the disk is a finite map from file names to contents, and reading,
      writing and removing a file are map operations, which do not fail;
    - what the canvas draws is not modelled. *)

From Stdlib Require Import ZArith Ascii String DecimalString DecimalN DecimalZ Lia.
From stdpp Require Import gmap strings list.

Local Open Scope Z_scope.
#[local] Set Warnings "-register-all".

(** ** Python values produced by [json.load] *)

(** A float is carried by the text [str()] prints for it: no method of the
    explorer computes with a number, it only prints it. A [dict] is the list
    of its entries in insertion order; Python keeps its keys distinct
    ([dict_keys_unique] below). *)
Inductive json : Type :=
| JNull
| JBool (b : bool)
| JInt (z : Z)
| JFloat (repr : string)
| JString (s : string)
| JArray (l : list json)
| JObject (kvs : list (string * json)).

(** ** Exceptions *)

Inductive exn : Type :=
| KeyError | IndexError | TypeError | ValueError | AttributeError
| OtherError (msg : string).

Inductive result (A : Type) : Type :=
| Ret (a : A)
| Raise (e : exn).
Arguments Ret {A} a.
Arguments Raise {A} e.

#[global] Instance result_ret : MRet result := λ A a, Ret a.
#[global] Instance result_bind : MBind result := λ A B k r,
  match r with
  | Ret a => k a
  | Raise e => Raise e
  end.

(** ** Strings *)

Module Str.

Definition code (c : ascii) : N := N_of_ascii c.

Definition is_digit (c : ascii) : bool :=
  ((48 <=? code c) && (code c <=? 57))%N.

Definition is_upper (c : ascii) : bool :=
  ((65 <=? code c) && (code c <=? 90))%N.

(** The characters [int()] strips: [str.isspace] below code 128. *)
Definition is_space (c : ascii) : bool :=
  ((9 <=? code c) && (code c <=? 13))%N
  || ((28 <=? code c) && (code c <=? 32))%N.

Definition lower_char (c : ascii) : ascii :=
  if is_upper c then ascii_of_N (code c + 32) else c.

(** [str.lower] on the characters below code 128. *)
Fixpoint lower (s : string) : string :=
  match s with
  | EmptyString => EmptyString
  | String c r => String (lower_char c) (lower r)
  end.

Fixpoint forallb (p : ascii → bool) (s : string) : bool :=
  match s with
  | EmptyString => true
  | String c r => p c && forallb p r
  end.

Definition nonempty (s : string) : bool :=
  match s with
  | EmptyString => false
  | String _ _ => true
  end.

(** [str.isdigit]: at least one character, and all of them digits [0]
  to [9]. *)
Definition isdigit (s : string) : bool := nonempty s && forallb is_digit s.

Fixpoint prefix (p s : string) : bool :=
  match p, s with
  | EmptyString, _ => true
  | String a p', String b s' => if Ascii.eqb a b then prefix p' s' else false
  | String _ _, EmptyString => false
  end.

(** [q in s] on strings. *)
Fixpoint contains (q s : string) : bool :=
  prefix q s ||
  match s with
  | EmptyString => false
  | String _ r => contains q r
  end.

(** [s.index(q)]: the position of the first occurrence. *)
Fixpoint find (q s : string) : option nat :=
  if prefix q s then Some 0%nat
  else match s with
       | EmptyString => None
       | String _ r => S <$> find q r
       end.

(** [s.split(sep)] for a one-character separator. *)
Fixpoint split (sep : ascii) (s : string) : list string :=
  match s with
  | EmptyString => [EmptyString]
  | String c r =>
      if Ascii.eqb c sep then EmptyString :: split sep r
      else match split sep r with
           | h :: t => String c h :: t
           | [] => [String c EmptyString]
           end
  end.

Definition has_char (c : ascii) (s : string) : bool :=
  negb (forallb (λ x, negb (Ascii.eqb x c)) s).

Fixpoint drop_while (p : ascii → bool) (s : string) : string :=
  match s with
  | EmptyString => EmptyString
  | String c r => if p c then drop_while p r else s
  end.

Fixpoint rev_onto (acc s : string) : string :=
  match s with
  | EmptyString => acc
  | String c r => rev_onto (String c acc) r
  end.

Definition rev (s : string) : string := rev_onto EmptyString s.

Definition strip (s : string) : string :=
  rev (drop_while is_space (rev (drop_while is_space s))).

Fixpoint take (n : nat) (s : string) : string :=
  match n, s with
  | S n', String c r => String c (take n' r)
  | _, _ => EmptyString
  end.

Fixpoint nth (n : nat) (s : string) : option ascii :=
  match s, n with
  | EmptyString, _ => None
  | String c _, O => Some c
  | String _ r, S n' => nth n' r
  end.

End Str.

Definition slash : ascii := "/"%char.

(** ** Python operations on loaded values *)

Module Py.

(** [str(i)] for an [int]. *)
Definition str_int (z : Z) : string := NilEmpty.string_of_int (Z.to_int z).

(** The digits of an [int()] literal: digits, with single underscores
    allowed between two digits only. [prev] tells whether the previous
    character was a digit. *)
Fixpoint literal_digits (prev : bool) (s : string) : option string :=
  match s with
  | EmptyString => if prev then Some EmptyString else None
  | String c r =>
      if Str.is_digit c then String c <$> literal_digits true r
      else if Ascii.eqb c "_" then
             (if prev then literal_digits false r else None)
           else None
  end.

Definition unsigned_literal (s : string) : option Z :=
  d ← literal_digits false s;
  u ← NilEmpty.uint_of_string d;
  Some (Z.of_uint u).

(** [int(s)] in base ten: [None] stands for [ValueError]. *)
Definition int (s : string) : option Z :=
  match Str.strip s with
  | String c r =>
      if Ascii.eqb c "-" then Z.opp <$> unsigned_literal r
      else if Ascii.eqb c "+" then unsigned_literal r
      else unsigned_literal (String c r)
  | EmptyString => None
  end.

(** Position [i] of a sequence of length [n], a negative [i] counting from
    the end; [None] stands for [IndexError]. *)
Definition position (n : nat) (i : Z) : option nat :=
  let j := if i <? 0 then i + Z.of_nat n else i in
  if (0 <=? j) && (j <? Z.of_nat n) then Some (Z.to_nat j) else None.

Definition list_item {A} (l : list A) (i : Z) : option A :=
  j ← position (length l) i; l !! j.

Definition str_item (s : string) (i : Z) : option string :=
  j ← position (String.length s) i;
  c ← Str.nth j s;
  Some (String c EmptyString).

(** [d[k]] on the entries of a [dict]. *)
Fixpoint dict_item (k : string) (kvs : list (string * json)) : option json :=
  match kvs with
  | [] => None
  | (k', v) :: r => if String.eqb k k' then Some v else dict_item k r
  end.

(** A subscript is an [int] or a [str]. *)
Inductive key : Type :=
| KInt (i : Z)
| KStr (s : string).

(** [cur[k]]. The keys of a loaded [dict] are strings, so an [int] is never
    one of them; [None], booleans and numbers are not subscriptable. *)
Definition getitem (cur : json) (k : key) : result json :=
  match cur, k with
  | JObject kvs, KStr s =>
      match dict_item s kvs with
      | Some v => Ret v
      | None => Raise KeyError
      end
  | JObject _, KInt _ => Raise KeyError
  | JArray l, KInt i =>
      match list_item l i with
      | Some v => Ret v
      | None => Raise IndexError
      end
  | JString s, KInt i =>
      match str_item s i with
      | Some c => Ret (JString c)
      | None => Raise IndexError
      end
  | _, _ => Raise TypeError
  end.

(** [len(v)]. *)
Definition len (v : json) : result Z :=
  match v with
  | JObject kvs => Ret (Z.of_nat (length kvs))
  | JArray l => Ret (Z.of_nat (length l))
  | JString s => Ret (Z.of_nat (String.length s))
  | _ => Raise TypeError
  end.

(** [v.get(k, default)]: only a [dict] has the method. *)
Definition get (v : json) (k : string) (dflt : json) : result json :=
  match v with
  | JObject kvs => Ret (default dflt (dict_item k kvs))
  | _ => Raise AttributeError
  end.

(** [str(v)] for a primitive value. Both callers, [populate_tree] and
    [on_tree_select], reach [str] only after the tests for [dict] and
    [list] have failed; the last case is never evaluated. *)
Definition str (v : json) : string :=
  match v with
  | JNull => "None"
  | JBool true => "True"
  | JBool false => "False"
  | JInt z => str_int z
  | JFloat r => r
  | JString s => s
  | JArray _ | JObject _ => EmptyString
  end.

End Py.

(** ** Path resolution *)

(** One subscript of the loop of [get_value_at_path]: a part made of digits
    is converted with [int] and used as an index, any other part is used as
    a key. *)
Definition subscript (current : json) (part : string) : result json :=
  if Str.isdigit part then
    match Py.int part with
    | Some i => Py.getitem current (Py.KInt i)
    | None => Raise ValueError
    end
  else Py.getitem current (Py.KStr part).

(** The loop over the parts: empty parts are skipped, [KeyError] and
    [IndexError] make the method return [None], any other exception leaves
    the method. *)
Fixpoint walk (current : json) (parts : list string) : result json :=
  match parts with
  | [] => Ret current
  | part :: rest =>
      if Str.nonempty part then
        match subscript current part with
        | Ret v => walk v rest
        | Raise KeyError | Raise IndexError => Ret JNull
        | Raise e => Raise e
        end
      else walk current rest
  end.

Definition get_value_at_path (current_json : json) (path : string) : result json :=
  if Str.nonempty path then walk current_json (Str.split slash path)
  else Ret current_json.

(** ** The tree widget *)

(** An item of the [ttk.Treeview]: its id, its text, the first entry of its
    values column, its tags and its children in display order. [src] is a
    ghost field: the widget does not have it; it records the Python value
    in scope at the [tree.insert] call ([value] for the item of a key or of
    an index, [data] for the preview item of a primitive), so that a
    statement can speak of the value an item was built from. *)
Inductive node : Type :=
| Node (iid : nat) (text values : string) (tags : list string) (src : json)
       (children : list node).

Definition iid (n : node) : nat := let 'Node i _ _ _ _ _ := n in i.
Definition text (n : node) : string := let 'Node _ t _ _ _ _ := n in t.
Definition values (n : node) : string := let 'Node _ _ v _ _ _ := n in v.
Definition tags (n : node) : list string := let 'Node _ _ _ g _ _ := n in g.
Definition src (n : node) : json := let 'Node _ _ _ _ s _ := n in s.
Definition children (n : node) : list node := let 'Node _ _ _ _ _ c := n in c.

(** The widget: the children of the root item [""] and the counter from
    which tk names the next item. *)
Record treeview : Type := Treeview {
  roots : list node;
  next_iid : nat
}.

Definition empty_tree : treeview := Treeview [] 1.

(** The parent of an insertion: the root item [""] or an item. *)
Definition parent_ref : Type := option nat.

Fixpoint add_child (p : nat) (new : node) (n : node) : node :=
  let 'Node i t v g s ch := n in
  let ch' := map (add_child p new) ch in
  Node i t v g s (if Nat.eqb i p then ch' ++ [new] else ch').

(** [tree.insert(parent, tk.END, text=..., values=(...,))]: the new item
    becomes the last child of [parent]; the result is its id. ([parent] is
    the root or an item of the tree at every call of [populate_tree].) *)
Definition tree_insert (parent : parent_ref) (tx vals : string) (from : json)
    (t : treeview) : nat * treeview :=
  let i := next_iid t in
  let new := Node i tx vals [] from [] in
  (i, Treeview
        (match parent with
         | None => roots t ++ [new]
         | Some p => map (add_child p new) (roots t)
         end)
        (S i)).

(** Every item below (and including) an item, parents first. *)
Fixpoint subtree (n : node) : list node :=
  n :: flat_map subtree (children n).

Definition items (t : treeview) : list node := flat_map subtree (roots t).

(** [f"{path}/{seg}" if path else seg]. *)
Definition join_path (path seg : string) : string :=
  if Str.nonempty path then path +:+ "/" +:+ seg else seg.

(** The preview of a primitive value. *)
Definition preview (data : json) : string :=
  let p := Py.str data in
  if (50 <? String.length p)%nat then Str.take 47 p +:+ "..." else p.

(** The loop [for key, value in data.items()] of [populate_tree], with the
    recursive call as [populate]. *)
Definition each_entry (populate : parent_ref → json → string → treeview → treeview)
    (parent : parent_ref) (path : string)
    : list (string * json) → treeview → treeview :=
  fix each (kvs : list (string * json)) (t : treeview) : treeview :=
    match kvs with
    | [] => t
    | (key, value) :: kvs' =>
        let current_path := join_path path key in
        let '(item_id, t) := tree_insert parent key current_path value t in
        each kvs' (populate (Some item_id) value current_path t)
    end.

(** The loop [for index, value in enumerate(data)]. *)
Definition each_index (populate : parent_ref → json → string → treeview → treeview)
    (parent : parent_ref) (path : string)
    : nat → list json → treeview → treeview :=
  fix each (index : nat) (l : list json) (t : treeview) : treeview :=
    match l with
    | [] => t
    | value :: l' =>
        let current_path := join_path path (Py.str_int (Z.of_nat index)) in
        let '(item_id, t) :=
          tree_insert parent ("[" +:+ Py.str_int (Z.of_nat index) +:+ "]")
            current_path value t in
        each (S index) l' (populate (Some item_id) value current_path t)
    end.

(** [populate_tree(parent, data, path)]. *)
Fixpoint populate_tree (parent : parent_ref) (data : json) (path : string)
    (t : treeview) : treeview :=
  match data with
  | JObject kvs => each_entry populate_tree parent path kvs t
  | JArray l => each_index populate_tree parent path 0%nat l t
  | _ => (tree_insert parent (preview data) path data t).2
  end.

(** The part of [load_json] after the file has been parsed: the tree is
    cleared and populated from the root. *)
Definition load_tree (old : treeview) (current_json : json) : treeview :=
  populate_tree None current_json EmptyString (Treeview [] (next_iid old)).

(** ** Search *)

Definition search_match : string := "search_match".

Fixpoint set_tags (i : nat) (g : list string) (n : node) : node :=
  let 'Node j t v g0 s ch := n in
  Node j t v (if Nat.eqb j i then g else g0) s (map (set_tags i g) ch).

(** [tree.item(item, tags=g)]. *)
Definition item_set_tags (i : nat) (g : list string) (t : treeview) : treeview :=
  Treeview (map (set_tags i g) (roots t)) (next_iid t).

(** [get_all_items(item)]: the children of the item, then what the method
    returns for each child. *)
Fixpoint get_all_items_below (n : node) : list nat :=
  let 'Node _ _ _ _ _ ch := n in
  map iid ch ++ flat_map get_all_items_below ch.

Definition get_all_items (t : treeview) : list nat :=
  map iid (roots t) ++ flat_map get_all_items_below (roots t).

(** The local function [search_in_tree(node)]. The text and the children of
    the item are read from [n], the item as it is when the search starts:
    the search changes tags only. ([tree.see] scrolls the view, which the
    model does not have.) *)
Fixpoint search_in_tree (search_text : string) (n : node) (t : treeview) : treeview :=
  let 'Node i tx _ _ _ ch := n in
  let t :=
    if Str.contains search_text (Str.lower tx)
    then item_set_tags i [search_match] t else t in
  fold_left (λ t child, search_in_tree search_text child t) ch t.

(** [on_search_change]: [search_var] is the content of the search entry. *)
Definition on_search_change (search_var : string) (t : treeview) : treeview :=
  let search_text := Str.lower search_var in
  let t := fold_left (λ t item, item_set_tags item [] t) (get_all_items t) t in
  if Str.nonempty search_text
  then fold_left (λ t item, search_in_tree search_text item t) (roots t) t
  else t.



(** ** Routing a selection to a document *)

Definition names_key : string := "nombre_documentos".
Definition payloads_key : string := "lista_documentos".

(** What [on_tree_select] does with the path of the selected item. *)
Inductive selection : Type :=
| Nothing                                   (* the value is [None] *)
| Document (base64_data filename : json)    (* [render_document] is called *)
| PlainValue (value : json).                (* the value goes to the text view *)

Definition int_or_raise (s : string) : result Z :=
  match Py.int s with
  | Some i => Ret i
  | None => Raise ValueError
  end.

(** The body of the [try] of [on_tree_select]: the pair handed to
    [render_document], or [None] when a test fails. *)
Definition document_of_path (current_json : json) (path : string)
    : result (option (json * json)) :=
  let path_parts := Str.split slash path in
  if bool_decide (names_key ∈ path_parts) then
    doc_index ← int_or_raise (List.last path_parts EmptyString);
    names ← Py.get current_json names_key (JArray []);
    n ← Py.len names;
    if doc_index <? n then
      names ← Py.getitem current_json (Py.KStr names_key);
      filename ← Py.getitem names (Py.KInt doc_index);
      payloads ← Py.getitem current_json (Py.KStr payloads_key);
      value ← Py.getitem payloads (Py.KInt doc_index);
      Ret (Some (value, filename))
    else Ret None
  else Ret None.

Definition is_none (v : json) : bool :=
  match v with
  | JNull => true
  | _ => false
  end.

(** The decision of [on_tree_select]. [ValueError] and [IndexError] raised in
    the [try] are caught and the value is shown as text; any other exception
    leaves the method. *)
Definition resolve_selection (current_json : json) (path : string) : result selection :=
  value ← get_value_at_path current_json path;
  if is_none value then Ret Nothing
  else
    match document_of_path current_json path with
    | Ret (Some (base64_data, filename)) => Ret (Document base64_data filename)
    | Ret None => Ret (PlainValue value)
    | Raise ValueError | Raise IndexError => Ret (PlainValue value)
    | Raise e => Raise e
    end.

(** ** The document viewer *)

Definition bytes : Type := list Byte.byte.

(** The libraries the viewer calls. Each is a function of its input; what
    it computes is not part of this repository. *)
Class Libs : Type := {
  (** [base64.b64decode] on a [str]. *)
  b64decode : string → result bytes;
  (** The name [tempfile.NamedTemporaryFile(delete=False, suffix=...)]
      chooses, given the files that exist. *)
  mkstemp : gmap string bytes → string → string;
  (** [Image.open], [thumbnail] and [ImageTk.PhotoImage] on the content of
      a file: whether they succeed. *)
  image_open : bytes → result unit;
  (** [fitz.open] on the content of a file: the number of pages. *)
  fitz_open : bytes → result Z;
  (** [json.dumps(value, indent=4)]. *)
  json_dumps : json → string
}.

Inductive document : Type :=
| NoDocument
| PhotoImage (data : bytes)
| FitzDocument (data : bytes) (pages : Z).

Inductive dialog : Type :=
| ShowError (title prefix : string) (e : exn)
| ShowInfo (title message : string).

(** The fields of the explorer, the widgets whose content the methods set,
    and the two parts of the outside world they change: the files on disk
    and the message boxes shown. File operations are map operations and do
    not fail. *)
Record app : Type := App {
  current_json : json;
  tree : treeview;
  temp_files : list string;
  current_doc_name : string;
  current_document : document;
  current_page : Z;
  total_pages : Z;
  value_display : string;
  notebook_tab : nat;
  page_label : string;
  files : gmap string bytes;
  dialogs : list dialog
}.

Definition with_json (doc : json) (t : treeview) (st : app) : app :=
  App doc t (temp_files st) (current_doc_name st) (current_document st)
      (current_page st) (total_pages st) (value_display st) (notebook_tab st)
      (page_label st) (files st) (dialogs st).

(** [load_json] once the chosen file has been parsed into [doc]. *)
Definition load_json (doc : json) (st : app) : app :=
  with_json doc (load_tree (tree st) doc) st.

Definition with_temp (tf : list string) (fs : gmap string bytes) (st : app) : app :=
  App (current_json st) (tree st) tf (current_doc_name st) (current_document st)
      (current_page st) (total_pages st) (value_display st) (notebook_tab st)
      (page_label st) fs (dialogs st).

Definition with_doc_name (name : string) (st : app) : app :=
  App (current_json st) (tree st) (temp_files st) name (current_document st)
      (current_page st) (total_pages st) (value_display st) (notebook_tab st)
      (page_label st) (files st) (dialogs st).

Definition with_document (d : document) (st : app) : app :=
  App (current_json st) (tree st) (temp_files st) (current_doc_name st) d
      (current_page st) (total_pages st) (value_display st) (notebook_tab st)
      (page_label st) (files st) (dialogs st).

Definition with_pages (cur total : Z) (st : app) : app :=
  App (current_json st) (tree st) (temp_files st) (current_doc_name st)
      (current_document st) cur total (value_display st) (notebook_tab st)
      (page_label st) (files st) (dialogs st).

Definition with_text_view (s : string) (st : app) : app :=
  App (current_json st) (tree st) (temp_files st) (current_doc_name st)
      (current_document st) (current_page st) (total_pages st) s 0%nat
      (page_label st) (files st) (dialogs st).

Definition with_tab (tab : nat) (st : app) : app :=
  App (current_json st) (tree st) (temp_files st) (current_doc_name st)
      (current_document st) (current_page st) (total_pages st)
      (value_display st) tab (page_label st) (files st) (dialogs st).

Definition with_page_label (s : string) (st : app) : app :=
  App (current_json st) (tree st) (temp_files st) (current_doc_name st)
      (current_document st) (current_page st) (total_pages st)
      (value_display st) (notebook_tab st) s (files st) (dialogs st).

Definition with_files (fs : gmap string bytes) (st : app) : app :=
  with_temp (temp_files st) fs st.

Definition show_error (prefix : string) (e : exn) (st : app) : app :=
  App (current_json st) (tree st) (temp_files st) (current_doc_name st)
      (current_document st) (current_page st) (total_pages st)
      (value_display st) (notebook_tab st) (page_label st) (files st)
      (dialogs st ++ [ShowError "Error" prefix e]).

Definition show_info (message : string) (st : app) : app :=
  App (current_json st) (tree st) (temp_files st) (current_doc_name st)
      (current_document st) (current_page st) (total_pages st)
      (value_display st) (notebook_tab st) (page_label st) (files st)
      (dialogs st ++ [ShowInfo "Success" message]).

(** [os.path.splitext(p)[1]]: the extension starts at the last dot of the
    last path component, leading dots of that component not counting. *)
Definition splitext_ext (p : string) : string :=
  let base := List.last (Str.split slash p) EmptyString in
  let rest := Str.drop_while (Ascii.eqb ".") base in
  if Str.has_char "." rest
  then "." +:+ List.last (Str.split "." rest) EmptyString
  else EmptyString.

Definition image_exts : list string := [".jpg"; ".jpeg"; ".png"; ".gif"; ".bmp"].

Definition unsupported_text (file_ext : string) : string :=
  "File type " +:+ file_ext +:+ " preview not supported." +:+ String "010"
  "Use the Save Document button to save and open externally.".

Definition read_file (fs : gmap string bytes) (p : string) : result bytes :=
  match fs !! p with
  | Some b => Ret b
  | None => Raise (OtherError "FileNotFoundError")
  end.

Section Viewer.
Context `{Libs}.

(** [cleanup_temp_files]: every tracked file that exists is removed, and
    the list is emptied. *)
Definition cleanup_temp_files (st : app) : app :=
  with_temp [] (foldl (λ fs temp_file, delete temp_file fs) (files st) (temp_files st)) st.

(** [update_page_controls]: the label; the states of the two buttons are
    not modelled. *)
Definition update_page_controls (st : app) : app :=
  with_page_label
    ("Page: " +:+ Py.str_int (current_page st + 1) +:+ "/" +:+ Py.str_int (total_pages st))
    st.

(** [show_current_page]: the page [current_page] of the open PDF is drawn;
    a page number that is not below the page count raises inside the
    [try]. *)
Definition show_current_page (st : app) : app :=
  match current_document st with
  | FitzDocument _ pages =>
      if current_page st <? pages
      then update_page_controls st
      else show_error "Failed to show page: " IndexError st
  | _ => st
  end.

(** [render_pdf]. *)
Definition render_pdf (pdf_path : string) (st : app) : app :=
  match data ← read_file (files st) pdf_path; pages ← fitz_open data; Ret (data, pages) with
  | Ret (data, pages) =>
      let st := with_document (FitzDocument data pages) st in
      let st := with_pages 0 pages st in
      let st := show_current_page st in
      with_tab 1 st
  | Raise e => show_error "Failed to render PDF: " e st
  end.

(** [render_image]. *)
Definition render_image (image_path : string) (st : app) : app :=
  match data ← read_file (files st) image_path; _ ← image_open data; Ret data with
  | Ret data =>
      let st := with_document (PhotoImage data) st in
      let st := with_pages 1 1 st in
      let st := update_page_controls st in
      with_tab 1 st
  | Raise e => show_error "Failed to render image: " e st
  end.

Definition decode (base64_data : json) : result bytes :=
  match base64_data with
  | JString s => b64decode s
  | _ => Raise TypeError
  end.

Definition str_or_raise (v : json) : result string :=
  match v with
  | JString s => Ret s
  | _ => Raise TypeError
  end.

(** [render_document(base64_data, filename)]. *)
Definition render_document (base64_data filename : json) (st : app) : app :=
  let st := cleanup_temp_files st in
  match file_data ← decode base64_data;
        name ← str_or_raise filename;
        Ret (file_data, name) with
  | Raise e => show_error "Failed to render document: " e st
  | Ret (file_data, name) =>
      let file_ext := Str.lower (splitext_ext name) in
      let temp_path := mkstemp (files st) file_ext in
      let st := with_temp (temp_files st ++ [temp_path])
                  (<[temp_path := file_data]> (files st)) st in
      let st := with_doc_name name st in
      if bool_decide (file_ext ∈ image_exts) then render_image temp_path st
      else if String.eqb file_ext ".pdf" then render_pdf temp_path st
      else with_text_view (unsupported_text file_ext) st
  end.

(** [on_tree_select] for the selected item's path. *)
Definition on_tree_select (path : string) (st : app) : result app :=
  sel ← resolve_selection (current_json st) path;
  match sel with
  | Nothing => Ret st
  | Document base64_data filename => Ret (render_document base64_data filename st)
  | PlainValue value =>
      Ret (with_text_view
             (match value with
              | JObject _ | JArray _ => json_dumps value
              | _ => Py.str value
              end) st)
  end.

(** [names.index(filename)] for a [filename] that is a [str]: [None]
    stands for [ValueError]. *)
Fixpoint list_index_of (filename : string) (names : list json) : option nat :=
  match names with
  | [] => None
  | JString s :: r =>
      if String.eqb s filename then Some 0%nat else S <$> list_index_of filename r
  | _ :: r => S <$> list_index_of filename r
  end.

(** [get_document_index]: [ValueError] and [KeyError] give [None]. *)
Definition get_document_index (filename : string) (st : app) : result (option Z) :=
  match Py.getitem (current_json st) (Py.KStr names_key) with
  | Raise KeyError => Ret None
  | Raise e => Raise e
  | Ret (JArray names) => Ret (Z.of_nat <$> list_index_of filename names)
  | Ret (JString s) => Ret (Z.of_nat <$> Str.find filename s)
  | Ret _ => Raise AttributeError
  end.

(** [save_current_document]: [save_path] is what the file dialog returns,
    the empty string when it is cancelled. [open(save_path, 'wb')]
    truncates the file before the payload is decoded. *)
Definition save_current_document (save_path : string) (st : app) : app :=
  if negb (Str.nonempty (current_doc_name st)) then st
  else if negb (Str.nonempty save_path) then st
  else
    match get_document_index (current_doc_name st) st with
    | Raise e => show_error "Failed to save document: " e st
    | Ret None => st
    | Ret (Some doc_index) =>
        match payloads ← Py.getitem (current_json st) (Py.KStr payloads_key);
              Py.getitem payloads (Py.KInt doc_index) with
        | Raise e => show_error "Failed to save document: " e st
        | Ret base64_data =>
            let st := with_files (<[save_path := []]> (files st)) st in
            match decode base64_data with
            | Raise e => show_error "Failed to save document: " e st
            | Ret data =>
                show_info "Document saved successfully!"
                  (with_files (<[save_path := data]> (files st)) st)
            end
        end
    end.

End Viewer.

(** ** Documents and paths the statements speak of *)

(** The non-empty parts of a path. *)
Definition nonempty_parts (path : string) : list string :=
  filter (λ part, Str.nonempty part = true) (Str.split slash path).





(** The document of the example scenario of the specification, with the
    keys the code uses for the two paired arrays. *)
Definition scenario : json :=
  JObject [ ("nombre_documentos", JArray [JString "a.png"; JString "b.pdf"]);
            ("lista_documentos", JArray [JString "QUJD"; JString "REVG"]);
            ("meta", JObject [("x", JInt 1)]) ].


(** ** An instance of the libraries

    Stand-ins with which the viewer can be evaluated on examples: base64
    decoding of the standard alphabet with [=] padding, scratch names
    numbered by the count of existing files, an image library that accepts
    every file and a PDF library that reads the page count from the length
    of the file. The theorems below hold for every instance of [Libs]. *)

Definition b64_value (c : ascii) : option N :=
  let n := N_of_ascii c in
  (if (65 <=? n) && (n <=? 90) then Some (n - 65)
   else if (97 <=? n) && (n <=? 122) then Some (n - 71)
   else if (48 <=? n) && (n <=? 57) then Some (n + 4)
   else if n =? 43 then Some 62
   else if n =? 47 then Some 63
   else None)%N.

Definition b64_bytes (count : nat) (a b c d : ascii) : option bytes :=
  va ← b64_value a; vb ← b64_value b; vc ← b64_value c; vd ← b64_value d;
  let w := (va * 262144 + vb * 4096 + vc * 64 + vd)%N in
  b0 ← Byte.of_N (w / 65536); b1 ← Byte.of_N ((w / 256) mod 256);
  b2 ← Byte.of_N (w mod 256);
  Some (take count [b0; b1; b2]).

Fixpoint b64_groups (s : string) : option bytes :=
  match s with
  | EmptyString => Some []
  | String a (String b (String c (String d r))) =>
      if Ascii.eqb d "=" then
        match r with
        | EmptyString =>
            if Ascii.eqb c "=" then b64_bytes 1 a b "A" "A" else b64_bytes 2 a b c "A"
        | _ => None
        end
      else (h ← b64_bytes 3 a b c d; t ← b64_groups r; Some (h ++ t))
  | _ => None
  end.

Definition sample_libs : Libs := {|
  b64decode s :=
    match b64_groups s with
    | Some b => Ret b
    | None => Raise (OtherError "binascii.Error")
    end;
  mkstemp fs suffix := "/tmp/tmp" +:+ Py.str_int (Z.of_nat (size fs)) +:+ suffix;
  image_open _ := Ret tt;
  fitz_open data := Ret (Z.of_nat (length data));
  json_dumps _ := EmptyString
|}.

(** The explorer after [__init__] and after [load_json] has read a
    document, with an empty disk. *)
Definition loaded (doc : json) : app :=
  App doc (load_tree empty_tree doc) [] EmptyString NoDocument 0 0
      EmptyString 0%nat "Page: 0/0" ∅ [].

(** ** Notions used in the proofs *)




(** The number of times an id occurs in a list of ids. *)
Definition occurrences (x : nat) (ids : list nat) : nat :=
  count_occ Nat.eq_dec ids x.

(** The ids of the items are distinct and below the counter. *)
Definition distinct_ids (t : treeview) : Prop :=
  NoDup (iid <$> items t) ∧ Forall (λ i, (i < next_iid t)%nat) (iid <$> items t).

(** Changing the tags of every item as a function of its id. *)
Fixpoint retag (f : nat → list string → list string) (n : node) : node :=
  let 'Node i t v g s ch := n in Node i t v (f i g) s (map (retag f) ch).

Definition retag_tree (f : nat → list string → list string) (t : treeview) : treeview :=
  Treeview (map (retag f) (roots t)) (next_iid t).

(** [tree.item(item, tags=g)] changes the tags of the items named [i]. *)
Definition assign (i : nat) (g : list string) : nat → list string → list string :=
  λ j g0, if Nat.eqb j i then g else g0.

(** The first loop of [on_search_change]. *)
Definition untag (ids : list nat) : nat → list string → list string :=
  λ j g, if bool_decide (j ∈ ids) then [] else g.

(** The items whose lowered text contains the search text. *)
Definition hit (search_text : string) (n : node) : bool :=
  Str.contains search_text (Str.lower (text n)).

Definition hits (search_text : string) (ns : list node) : list nat :=
  iid <$> filter (λ n, hit search_text n = true) (flat_map subtree ns).

Definition mark (ids : list nat) : nat → list string → list string :=
  λ j g, if bool_decide (j ∈ ids) then [search_match] else g.

(** ** The viewer on the example scenario *)

Definition after_image : app :=
  @render_document sample_libs (JString "QUJD") (JString "a.png") (loaded scenario).

Definition after_pdf : app :=
  @render_document sample_libs (JString "REVG") (JString "b.pdf") after_image.

(** The viewer shows [b.pdf]; then a document that no longer has that name
    is loaded. *)
Definition reloaded : app :=
  load_json
    (JObject [ ("nombre_documentos", JArray [JString "other.png"]);
               ("lista_documentos", JArray [JString "QUJD"]) ])
    after_pdf.

(** ** Page navigation *)

(** [prev_page]. *)
Definition prev_page (st : app) : app :=
  match current_document st with
  | FitzDocument _ _ =>
      if 0 <? current_page st
      then show_current_page (with_pages (current_page st - 1) (total_pages st) st)
      else st
  | _ => st
  end.

(** [next_page]. *)
Definition next_page (st : app) : app :=
  match current_document st with
  | FitzDocument _ _ =>
      if current_page st <? total_pages st - 1
      then show_current_page (with_pages (current_page st + 1) (total_pages st) st)
      else st
  | _ => st
  end.

(** [cleanup_and_exit]: the scratch files are removed before the main loop
    is left. *)
Definition cleanup_and_exit `{Libs} (st : app) : app := cleanup_temp_files st.

(** ** The callbacks as events

    What [setup_menu], [setup_tree] and [setup_notebook] bind: the menu
    entry to [load_json], the selection of an item to [on_tree_select], a
    write to the search entry to [on_search_change], the three buttons to
    [prev_page], [next_page] and [save_current_document]. [load_json]
    catches what opening and parsing the file raise and reports it; a
    cancelled file dialog is no event. An exception that
    leaves a callback is reported by tk and the main loop goes on;
    [on_tree_select], the only callback that lets one out, has changed
    nothing when it does. *)
Inductive event : Type :=
| Load (parsed : result json)   (* a file was chosen; what reading it gave *)
| Select (path : string)        (* the item with this path was selected *)
| Search (search_var : string)  (* the search entry now holds this text *)
| PrevPage
| NextPage
| Save (save_path : string).    (* the button, and what the dialog returned *)

Definition with_tree (t : treeview) (st : app) : app :=
  with_json (current_json st) t st.

Definition handle `{Libs} (e : event) (st : app) : app :=
  match e with
  | Load (Ret doc) => load_json doc st
  | Load (Raise e) => show_error ("Failed to load JSON file:" +:+ String "010" "") e st
  | Select path =>
      match on_tree_select path st with
      | Ret st' => st'
      | Raise _ => st
      end
  | Search search_var => with_tree (on_search_change search_var (tree st)) st
  | PrevPage => prev_page st
  | NextPage => next_page st
  | Save save_path => save_current_document save_path st
  end.

Definition run `{Libs} (events : list event) (st : app) : app :=
  foldl (λ st e, handle e st) st events.

(** The explorer after [__init__]: no document, an empty tree, and the
    files [disk] on the disk. *)
Definition initial (disk : gmap string bytes) : app :=
  App (JObject []) empty_tree [] EmptyString NoDocument 0 0
      EmptyString 0%nat "Page: 0/0" disk [].

(** ** Invariants of the viewer *)

(** The text [update_page_controls] writes for the current page. *)
Definition page_text (st : app) : string :=
  "Page: " +:+ Py.str_int (current_page st + 1) +:+ "/" +:+ Py.str_int (total_pages st).

(** While a PDF is the current document, [total_pages] is its page count
    and the current page is one of its pages (page 0 when it has none). *)
Definition paging_ok (st : app) : Prop :=
  match current_document st with
  | FitzDocument _ pages =>
      total_pages st = pages
      ∧ 0 ≤ current_page st
      ∧ (current_page st < pages ∨ current_page st = 0)
  | _ => True
  end.

(** At most one scratch file is tracked, and it is on the disk. *)
Definition scratch_ok (st : app) : Prop :=
  temp_files st = [] ∨ ∃ p, temp_files st = [p] ∧ is_Some (files st !! p).

(** ** The tree built directly

    The forest that [populate_tree] puts under its parent, built without
    the widget: one item for each key or index, its children the forest of
    the value, and one preview item for a primitive; [next] is the id of
    the first item, and the ids follow the order of the [tree.insert]
    calls. *)

Definition build_entries (build : json → string → nat → list node * nat)
    (path : string) : list (string * json) → nat → list node * nat :=
  fix each (kvs : list (string * json)) (next : nat) : list node * nat :=
    match kvs with
    | [] => ([], next)
    | (key, value) :: kvs' =>
        let current_path := join_path path key in
        let '(sub, n1) := build value current_path (S next) in
        let '(rest, n2) := each kvs' n1 in
        (Node next key current_path [] value sub :: rest, n2)
    end.

Definition build_indices (build : json → string → nat → list node * nat)
    (path : string) : nat → list json → nat → list node * nat :=
  fix each (index : nat) (l : list json) (next : nat) : list node * nat :=
    match l with
    | [] => ([], next)
    | value :: l' =>
        let current_path := join_path path (Py.str_int (Z.of_nat index)) in
        let '(sub, n1) := build value current_path (S next) in
        let '(rest, n2) := each (S index) l' n1 in
        (Node next ("[" +:+ Py.str_int (Z.of_nat index) +:+ "]") current_path []
           value sub :: rest, n2)
    end.

Fixpoint build (data : json) (path : string) (next : nat) : list node * nat :=
  match data with
  | JObject kvs => build_entries build path kvs next
  | JArray l => build_indices build path 0%nat l next
  | _ => ([Node next (preview data) path [] data []], S next)
  end.

(** Appending a forest to the children of the items named [p]. *)
Fixpoint graft_node (p : nat) (f : list node) (n : node) : node :=
  let 'Node i t v g s ch := n in
  let ch' := map (graft_node p f) ch in
  Node i t v g s (if Nat.eqb i p then ch' ++ f else ch').

Definition graft (parent : parent_ref) (built : list node * nat) (t : treeview) : treeview :=
  Treeview
    (match parent with
     | None => roots t ++ built.1
     | Some p => map (graft_node p built.1) (roots t)
     end)
    built.2.

(** The ids of the items of a forest. *)
Definition forest_ids (ns : list node) : list nat := iid <$> flat_map subtree ns.

(** The ids in use are below the counter, and so is the parent. *)
Definition ids_below (parent : parent_ref) (t : treeview) : Prop :=
  Forall (λ i, (i < next_iid t)%nat) (forest_ids (roots t))
  ∧ match parent with
    | None => True
    | Some p => (p < next_iid t)%nat
    end.

(** The ids of a built forest are those from [lo] up to the counter it
    returns. *)
Definition in_range (lo : nat) (built : list node * nat) : Prop :=
  (lo ≤ built.2)%nat ∧ Forall (λ i, (lo ≤ i < built.2)%nat) (forest_ids built.1).

(** The number of items [populate_tree] creates for a value. *)
Fixpoint item_count (data : json) : nat :=
  match data with
  | JObject kvs => list_sum (map (λ kv, S (item_count kv.2)) kvs)
  | JArray l => list_sum (map (λ v, S (item_count v)) l)
  | _ => 1
  end.





(** The destinations the file dialog returned for the saves among the
    events. *)
Definition save_paths (events : list event) : list string :=
  flat_map (λ e, match e with Save save_path => [save_path] | _ => [] end) events.

(** Every file on the disk was there at the start, is the destination of
    a save, or is a tracked scratch file. *)
Definition accounted (disk : gmap string bytes) (saved : list string) (st : app) : Prop :=
  ∀ q, is_Some (files st !! q) → is_Some (disk !! q) ∨ q ∈ saved ∨ q ∈ temp_files st.

(** ** The encoder of [tobase64.py] *)







(** The viewer shows [b.pdf]; then a document is loaded in which the
    payload of that name is not base64. *)
Definition reloaded_broken : app :=
  load_json
    (JObject [ ("nombre_documentos", JArray [JString "b.pdf"]);
               ("lista_documentos", JArray [JString "%%%%"]) ])
    after_pdf.

(** A path whose characters have codes below 128 and that is short enough
    for [int] to accept any run of digits in it: outside these paths
    Python knows digits that [int] refuses, and refuses more than 4300
    digits. *)
Definition plain_path (path : string) : bool :=
  Str.forallb (λ c, (Str.code c <? 128)%N) path && (String.length path <=? 4300)%nat.

(** * Properties *)

#[local] Arguments String.append : simpl nomatch.

(** Induction on a document with the hypotheses for the members of an array
    and of an object. *)
Lemma json_nested_ind (P : json → Prop) :
  P JNull → (∀ b, P (JBool b)) → (∀ z, P (JInt z)) → (∀ r, P (JFloat r)) →
  (∀ s, P (JString s)) →
  (∀ l, Forall P l → P (JArray l)) →
  (∀ kvs, Forall (λ kv, P kv.2) kvs → P (JObject kvs)) →
  ∀ j, P j.
Proof.
  intros Hn Hb Hi Hf Hs Ha Ho.
  fix IH 1. intros [ | b | z | r | s | l | kvs ].
  - exact Hn.
  - apply Hb.
  - apply Hi.
  - apply Hf.
  - apply Hs.
  - apply Ha. induction l as [ | x l IHl ]; constructor; [ apply IH | exact IHl ].
  - apply Ho. induction kvs as [ | [k v] kvs IHk ]; constructor; [ apply IH | exact IHk ].
Qed.



(** ** Strings *)

Module StrFacts.
Import Str.

Lemma app_nil_r (s : string) : s +:+ "" = s.
Proof. induction s as [ | c s IH ]; simpl; congruence. Qed.

Lemma app_assoc (a b c : string) : (a +:+ b) +:+ c = a +:+ b +:+ c.
Proof. induction a as [ | x a IH ]; simpl; congruence. Qed.

Lemma nonempty_app_r (a b : string) : nonempty b = true → nonempty (a +:+ b) = true.
Proof. destruct a; simpl; auto. Qed.


Lemma forallb_app (p : ascii → bool) (a b : string) :
  forallb p (a +:+ b) = forallb p a && forallb p b.
Proof. induction a as [ | x a IH ]; simpl; [ done | ]. rewrite IH. apply andb_assoc. Qed.

Lemma split_nonnil (sep : ascii) (s : string) : split sep s ≠ [].
Proof.
  induction s as [ | c s IH ]; simpl; [ done | ].
  destruct (Ascii.eqb c sep); [ done | ].
  destruct (split sep s); done.
Qed.

(** Splitting commutes with joining two strings by the separator. *)
Lemma split_join (sep : ascii) (a b : string) :
  split sep (a +:+ String sep b) = split sep a ++ split sep b.
Proof.
  induction a as [ | c a IH ]; simpl.
  - by rewrite Ascii.eqb_refl.
  - destruct (Ascii.eqb c sep); [ by rewrite IH | ].
    rewrite IH. pose proof (split_nonnil sep a).
    destruct (split sep a); done.
Qed.





Lemma rev_onto_app (acc s : string) : rev_onto acc s = rev s +:+ acc.
Proof.
  unfold rev. revert acc. induction s as [ | c s IH ]; intros acc; simpl; [ done | ].
  rewrite IH, (IH (String c "")), app_assoc. done.
Qed.

Lemma rev_onto_snoc (acc s : string) (c : ascii) :
  rev_onto acc (s +:+ String c "") = String c (rev_onto acc s).
Proof. revert acc. induction s as [ | x s IH ]; intros acc; simpl; [ done | ]. apply IH. Qed.

Lemma rev_snoc (s : string) (c : ascii) : rev (s +:+ String c "") = String c (rev s).
Proof. apply rev_onto_snoc. Qed.

Lemma rev_involutive (s : string) : rev (rev s) = s.
Proof.
  induction s as [ | c s IH ]; [ done | ].
  unfold rev at 2. simpl. rewrite rev_onto_app, rev_snoc. congruence.
Qed.

Lemma forallb_rev (p : ascii → bool) (s : string) : forallb p (rev s) = forallb p s.
Proof.
  induction s as [ | c s IH ]; [ done | ].
  unfold rev. simpl. rewrite rev_onto_app, forallb_app, IH. simpl.
  rewrite andb_true_r. apply andb_comm.
Qed.

Lemma digit_not_space (c : ascii) : is_digit c = true → is_space c = false.
Proof.
  unfold is_digit, is_space. generalize (code c). intros n [H1 H2]%andb_prop.
  apply N.leb_le in H1, H2. apply orb_false_iff.
  split; apply andb_false_iff; right; apply N.leb_gt; lia.
Qed.

Lemma drop_while_digits (s : string) :
  forallb is_digit s = true → drop_while is_space s = s.
Proof.
  destruct s as [ | c s ]; simpl; [ done | ].
  intros [Hc _]%andb_prop. by rewrite (digit_not_space c Hc).
Qed.

Lemma strip_digits (s : string) : forallb is_digit s = true → strip s = s.
Proof.
  intros Hs. unfold strip. rewrite (drop_while_digits s Hs).
  rewrite drop_while_digits by (by rewrite forallb_rev).
  apply rev_involutive.
Qed.

End StrFacts.

(** ** [int] and [str] on indices *)

Module PyFacts.
Import Str StrFacts.

Lemma digit_neq (c x : ascii) : is_digit c = true → is_digit x = false → Ascii.eqb c x = false.
Proof. intros Hc Hx. destruct (Ascii.eqb_spec c x) as [ -> | ]; congruence. Qed.

Lemma literal_digits_after_digit (s : string) :
  forallb is_digit s = true → Py.literal_digits true s = Some s.
Proof.
  induction s as [ | c s IH ]; simpl; [ done | ].
  intros [Hc Hs]%andb_prop. by rewrite Hc, (IH Hs).
Qed.

Lemma literal_digits_isdigit (s : string) :
  isdigit s = true → Py.literal_digits false s = Some s.
Proof.
  unfold isdigit. destruct s as [ | c s ]; simpl; [ done | ].
  intros [Hc Hs]%andb_prop. by rewrite Hc, (literal_digits_after_digit s Hs).
Qed.

Lemma uint_of_string_digits (s : string) :
  forallb is_digit s = true → is_Some (NilEmpty.uint_of_string s).
Proof.
  induction s as [ | c s IH ]; simpl; [ by eexists | ].
  intros [Hc Hs]%andb_prop. destruct (IH Hs) as [d ->].
  destruct c as [[] [] [] [] [] [] [] []]; try discriminate Hc; by eexists.
Qed.

Lemma of_uint_nonneg (d : Decimal.uint) : 0 ≤ Z.of_uint d.
Proof. unfold Z.of_uint. lia. Qed.

(** On a string of digits [int] is the decimal reading. *)
Lemma int_decimal (s : string) :
  isdigit s = true → Py.int s = Z.of_uint <$> NilEmpty.uint_of_string s.
Proof.
  intros Hs. pose proof Hs as [Hne Hall]%andb_prop.
  unfold Py.int. rewrite (strip_digits s Hall).
  destruct s as [ | c r ]; [ done | ].
  pose proof Hall as [Hc Hr]%andb_prop.
  rewrite (digit_neq c "-" Hc eq_refl), (digit_neq c "+" Hc eq_refl).
  unfold Py.unsigned_literal. rewrite (literal_digits_isdigit _ Hs).
  change (Some (String c r) ≫= ?f) with (f (String c r)). cbv beta.
  generalize (NilEmpty.uint_of_string (String c r)). by intros [ u | ].
Qed.

Lemma int_isdigit (s : string) :
  isdigit s = true → ∃ i, Py.int s = Some i ∧ 0 ≤ i.
Proof.
  intros Hs. rewrite (int_decimal s Hs).
  apply andb_prop in Hs as [_ Hall].
  destruct (uint_of_string_digits s Hall) as [d ->].
  simpl. eauto using of_uint_nonneg.
Qed.








Lemma list_item_nat {A} (l : list A) (i : nat) :
  Py.list_item l (Z.of_nat i) = l !! i.
Proof.
  unfold Py.list_item, Py.position.
  destruct (Z.ltb_spec (Z.of_nat i) 0) as [ ? | _ ]; [ lia | ].
  destruct (Z.leb_spec 0 (Z.of_nat i)) as [ _ | ? ]; [ | lia ].
  destruct (Z.ltb_spec (Z.of_nat i) (Z.of_nat (length l))) as [ Hlt | Hge ]; simpl.
  - by rewrite Nat2Z.id.
  - symmetry. apply lookup_ge_None. lia.
Qed.

End PyFacts.

(** ** Path resolution *)

Section Resolution.
Import Str StrFacts PyFacts.


Lemma walk_skips_empty (current : json) (parts : list string) :
  walk current parts = walk current (filter (λ part, nonempty part = true) parts).
Proof.
  revert current. induction parts as [ | part rest IH ]; intros current; [ done | ].
  rewrite filter_cons. simpl. destruct (nonempty part) eqn:Hp.
  - rewrite decide_True by done. simpl. rewrite Hp.
    destruct (subscript current part) as [ v | e ]; [ apply IH | done ].
  - rewrite decide_False by done. apply IH.
Qed.

(** The value returned depends on the non-empty parts only. *)
Lemma get_value_at_path_parts (current_json : json) (path : string) :
  get_value_at_path current_json path = walk current_json (nonempty_parts path).
Proof.
  unfold get_value_at_path, nonempty_parts. destruct path as [ | c r ]; [ done | ].
  apply walk_skips_empty.
Qed.

Lemma nonempty_parts_join (a b : string) :
  nonempty_parts (a +:+ String slash b) = nonempty_parts a ++ nonempty_parts b.
Proof. unfold nonempty_parts. by rewrite split_join, filter_app. Qed.

(** After a path that reached a value other than [None], the remaining
    parts are resolved from that value. *)
Lemma walk_app (current v : json) (ps qs : list string) :
  walk current ps = Ret v → v ≠ JNull → walk current (ps ++ qs) = walk v qs.
Proof.
  revert current. induction ps as [ | part rest IH ]; intros current; simpl.
  - by intros [= ->].
  - destruct (nonempty part); [ | apply IH ].
    destruct (subscript current part) as [ w | [] ]; try done; try apply IH.
    all: by intros [= <-].
Qed.



End Resolution.

(** ** The tree widget *)

Section Tree.

Lemma node_nested_ind (P : node → Prop) :
  (∀ i t v g s ch, Forall P ch → P (Node i t v g s ch)) → ∀ n, P n.
Proof.
  intros Hnode. fix IH 1. intros [i t v g s ch]. apply Hnode.
  induction ch as [ | c ch IHch ]; constructor; [ apply IH | exact IHch ].
Qed.

Lemma elem_of_flat_map {A B} (f : A → list B) (l : list A) (y : B) :
  y ∈ flat_map f l ↔ ∃ x, x ∈ l ∧ y ∈ f x.
Proof.
  rewrite list_elem_of_In, in_flat_map.
  split; intros [x [H1 H2]]; exists x; by rewrite ?list_elem_of_In in *.
Qed.



End Tree.

(** ** Population *)

Section Population.
Import Str StrFacts PyFacts.

Variable doc : json.








End Population.

(** ** Item ids *)

Section ItemIds.

(** Any property of the widget that an insertion keeps is kept by
  population. *)
Lemma populate_tree_preserves (P : treeview → Prop) :
(∀ parent tx vals from t, P t → P (tree_insert parent tx vals from t).2) →
∀ data parent path t, P t → P (populate_tree parent data path t).
Proof.
intros Hins.
induction data as [ | b | z | r | s | l IH | kvs IH ] using json_nested_ind;
  intros parent path t Ht; try (by apply Hins).
- simpl. generalize 0%nat. revert t Ht.
  induction IH as [ | v l Hv _ IHl ]; intros t Ht index; [ done | ].
  simpl. apply IHl, Hv, Hins, Ht.
- simpl. revert t Ht.
  induction IH as [ | [k v] kvs Hv _ IHl ]; intros t Ht; [ done | ].
  simpl. apply IHl, Hv, Hins, Ht.
Qed.

Lemma occurrences_app (x : nat) (a b : list nat) :
occurrences x (a ++ b) = (occurrences x a + occurrences x b)%nat.
Proof. apply count_occ_app. Qed.

Lemma occurrences_cons (x i : nat) (l : list nat) :
occurrences x (i :: l) = ((if Nat.eqb i x then 1 else 0) + occurrences x l)%nat.
Proof.
unfold occurrences. simpl.
destruct (Nat.eq_dec i x), (Nat.eqb_spec i x); done || congruence.
Qed.

Lemma subtree_unfold (n : node) : subtree n = n :: flat_map subtree (children n).
Proof. by destruct n. Qed.

Lemma occurrences_leaf (x : nat) (new : node) :
children new = [] →
occurrences x (iid <$> subtree new) = if Nat.eqb (iid new) x then 1%nat else 0%nat.
Proof.
intros Hleaf. rewrite subtree_unfold, Hleaf, fmap_cons, occurrences_cons.
change (occurrences x (iid <$> flat_map subtree [])) with 0%nat. lia.
Qed.

Lemma occurrences_add_child (p : nat) (new n : node) (x : nat) :
children new = [] →
occurrences x (iid <$> subtree (add_child p new n))
= (occurrences x (iid <$> subtree n)
   + if Nat.eqb (iid new) x then occurrences p (iid <$> subtree n) else 0)%nat.
Proof.
intros Hleaf. induction n as [i t v g s ch IH] using node_nested_ind.
assert (occurrences x (iid <$> flat_map subtree (map (add_child p new) ch))
        = (occurrences x (iid <$> flat_map subtree ch)
           + if Nat.eqb (iid new) x then occurrences p (iid <$> flat_map subtree ch) else 0)%nat)
  as Hch.
{ induction IH as [ | c ch Hc _ IHch ]; cbn [map flat_map].
  - by destruct (Nat.eqb (iid new) x).
  - rewrite !fmap_app, !occurrences_app, Hc, IHch.
    destruct (Nat.eqb (iid new) x); lia. }
rewrite (subtree_unfold (add_child _ _ _)), (subtree_unfold (Node i t v g s ch)).
rewrite !fmap_cons, !occurrences_cons.
change (iid (add_child p new (Node i t v g s ch))) with i.
change (iid (Node i t v g s ch)) with i.
change (children (Node i t v g s ch)) with ch.
change (children (add_child p new (Node i t v g s ch)))
  with (if Nat.eqb i p then map (add_child p new) ch ++ [new]
        else map (add_child p new) ch).
destruct (Nat.eqb i p).
- rewrite flat_map_app, fmap_app, occurrences_app, Hch.
  change (flat_map subtree [new]) with (subtree new ++ []).
  rewrite List.app_nil_r, (occurrences_leaf x new Hleaf).
  destruct (Nat.eqb (iid new) x); lia.
- rewrite Hch. destruct (Nat.eqb (iid new) x); lia.
Qed.

Lemma occurrences_insert parent tx vals from (t : treeview) (x : nat) :
occurrences x (iid <$> items (tree_insert parent tx vals from t).2)
= (occurrences x (iid <$> items t)
   + if Nat.eqb (next_iid t) x
     then match parent with
          | None => 1
          | Some p => occurrences p (iid <$> items t)
          end
     else 0)%nat.
Proof.
unfold tree_insert, items. cbn [snd roots]. destruct parent as [ p | ].
- induction (roots t) as [ | r rs IH ]; cbn [map flat_map].
  + by destruct (Nat.eqb (next_iid t) x).
  + rewrite !fmap_app, !occurrences_app, IH.
    rewrite (occurrences_add_child p _ r x) by done.
    change (iid (Node (next_iid t) tx vals [] from [])) with (next_iid t).
    destruct (Nat.eqb (next_iid t) x); lia.
- rewrite flat_map_app, fmap_app, occurrences_app. f_equal.
  change (flat_map subtree [Node (next_iid t) tx vals [] from []])
    with (subtree (Node (next_iid t) tx vals [] from []) ++ []).
  by rewrite List.app_nil_r, occurrences_leaf.
Qed.

Lemma tree_insert_distinct_ids parent tx vals from (t : treeview) :
distinct_ids t → distinct_ids (tree_insert parent tx vals from t).2.
Proof.
intros [Hnd Hlt].
assert (occurrences (next_iid t) (iid <$> items t) = 0%nat) as Hfresh.
{ apply count_occ_not_In. intros Hin%list_elem_of_In.
  rewrite Forall_forall in Hlt. specialize (Hlt _ Hin). lia. }
assert (∀ x, (occurrences x (iid <$> items t) ≤ 1)%nat) as Hone.
{ intros x. by apply (proj1 (NoDup_count_occ Nat.eq_dec _)), NoDup_ListNoDup. }
split.
- apply NoDup_ListNoDup, (proj2 (NoDup_count_occ Nat.eq_dec _)). intros x.
  fold (occurrences x (iid <$> items (tree_insert parent tx vals from t).2)).
  rewrite occurrences_insert.
  destruct (Nat.eqb_spec (next_iid t) x) as [ <- | Hne ].
  + rewrite Hfresh. destruct parent as [ p | ]; [ apply Hone | done ].
  + rewrite Nat.add_0_r. apply Hone.
- apply Forall_forall. intros x Hx%list_elem_of_In.
  apply (count_occ_In Nat.eq_dec) in Hx.
  fold (occurrences x (iid <$> items (tree_insert parent tx vals from t).2)) in Hx.
  rewrite occurrences_insert in Hx. cbn [snd next_iid tree_insert].
  destruct (Nat.eqb_spec (next_iid t) x) as [ Heq | Hne ]; [ lia | ].
  rewrite Nat.add_0_r in Hx. apply (count_occ_In Nat.eq_dec), list_elem_of_In in Hx.
  rewrite Forall_forall in Hlt. specialize (Hlt _ Hx). lia.
Qed.

(** The items of a populated tree have distinct ids. *)
Lemma load_tree_distinct_ids (old : treeview) (doc : json) :
NoDup (iid <$> items (load_tree old doc)).
Proof.
apply (populate_tree_preserves distinct_ids).
- intros. by apply tree_insert_distinct_ids.
- split; [ apply NoDup_nil_2 | apply Forall_nil_2 ].
Qed.

End ItemIds.

(** ** Claims on path resolution and population *)

Section PathClaims.
Import Str StrFacts PyFacts.

Example scenario_paths :
  (λ n, (text n, values n)) <$> items (load_tree empty_tree scenario) =
  [ ("nombre_documentos", "nombre_documentos");
    ("[0]", "nombre_documentos/0"); ("a.png", "nombre_documentos/0");
    ("[1]", "nombre_documentos/1"); ("b.pdf", "nombre_documentos/1");
    ("lista_documentos", "lista_documentos");
    ("[0]", "lista_documentos/0"); ("QUJD", "lista_documentos/0");
    ("[1]", "lista_documentos/1"); ("REVG", "lista_documentos/1");
    ("meta", "meta"); ("x", "meta/x"); ("1", "meta/x") ].
Proof. reflexivity. Qed.


(** The two other kinds of key that the amended statement leaves out: a
    key with a [/] is split into two parts, and the empty key gives its
    item the path of the parent. *)
Example slash_key_path_does_not_resolve :
  (λ n, (values n, src n)) <$> items (load_tree empty_tree (JObject [("a/b", JInt 1)]))
    = [("a/b", JInt 1); ("a/b", JInt 1)]
  ∧ get_value_at_path (JObject [("a/b", JInt 1)]) "a/b" = Ret JNull.
Proof. done. Qed.

Example empty_key_path_does_not_resolve :
  (λ n, (values n, src n)) <$> items (load_tree empty_tree (JObject [("", JInt 1)]))
    = [("", JInt 1); ("", JInt 1)]
  ∧ get_value_at_path (JObject [("", JInt 1)]) "" = Ret (JObject [("", JInt 1)]).
Proof. done. Qed.






(** C7. Resolution is not total: the path ["a/b"], which population
    itself stores on the item of the key ["a/b"], makes
    [get_value_at_path] subscript the number under ["a"] with a string;
    the [TypeError] is not among the exceptions the method catches. *)
Theorem get_value_at_path_raises :
  let doc := JObject [("a", JInt 1); ("a/b", JInt 2)] in
  values <$> items (load_tree empty_tree doc) = ["a"; "a"; "a/b"; "a/b"]
  ∧ get_value_at_path doc "a/b" = Raise TypeError
  ∧ get_value_at_path (JArray [JInt 1]) "x" = Raise TypeError.
Proof. done. Qed.

(** C10. Resolution ignores empty parts: the empty path gives the whole
    document, and a leading, a trailing or a doubled [/] does not change
    the result; more generally two paths with the same non-empty parts
    give the same result, be it a value or an exception. *)
Theorem get_value_at_path_ignores_empty_parts (doc : json) :
  get_value_at_path doc "" = Ret doc
  ∧ (∀ path, get_value_at_path doc ("/" +:+ path) = get_value_at_path doc path)
  ∧ (∀ path, get_value_at_path doc (path +:+ "/") = get_value_at_path doc path)
  ∧ (∀ a b, get_value_at_path doc (a +:+ "//" +:+ b)
            = get_value_at_path doc (a +:+ "/" +:+ b))
  ∧ (∀ p q, nonempty_parts p = nonempty_parts q →
            get_value_at_path doc p = get_value_at_path doc q).
Proof.
  split; [ done | ]. repeat split.
  - intros path. rewrite !get_value_at_path_parts.
    change ("/" +:+ path) with ("" +:+ String slash path).
    by rewrite nonempty_parts_join.
  - intros path. rewrite !get_value_at_path_parts.
    change (path +:+ "/") with (path +:+ String slash "").
    rewrite nonempty_parts_join. apply f_equal, List.app_nil_r.
  - intros a b. rewrite !get_value_at_path_parts.
    change (a +:+ "//" +:+ b) with (a +:+ String slash ("" +:+ String slash b)).
    change (a +:+ "/" +:+ b) with (a +:+ String slash b).
    by rewrite !nonempty_parts_join.
  - intros p q Hpq. by rewrite !get_value_at_path_parts, Hpq.
Qed.

Lemma get_value_at_path_ignores_empty_parts_witness :
  get_value_at_path scenario "/meta//x/" = get_value_at_path scenario "meta/x".
Proof.
  apply (get_value_at_path_ignores_empty_parts scenario). reflexivity.
Defined.

End PathClaims.

(** ** Search *)

Section Search.
Import Str StrFacts.

Lemma retag_ext f h (n : node) :
  (∀ j g, f j g = h j g) → retag f n = retag h n.
Proof.
  intros Hfh. induction n as [i t v g s ch IH] using node_nested_ind. simpl.
  rewrite Hfh. f_equal. apply map_ext_Forall, IH.
Qed.

Lemma retag_retag f h (n : node) :
  retag f (retag h n) = retag (λ j g, f j (h j g)) n.
Proof.
  induction n as [i t v g s ch IH] using node_nested_ind. simpl.
  f_equal. rewrite map_map. apply map_ext_Forall, IH.
Qed.

Lemma retag_tree_ext f h (t : treeview) :
  (∀ j g, f j g = h j g) → retag_tree f t = retag_tree h t.
Proof.
  intros Hfh. unfold retag_tree. f_equal. apply map_ext. intros n. by apply retag_ext.
Qed.

Lemma retag_tree_retag_tree f h (t : treeview) :
  retag_tree f (retag_tree h t) = retag_tree (λ j g, f j (h j g)) t.
Proof.
  unfold retag_tree. simpl. f_equal. rewrite map_map. apply map_ext. intros n.
  apply retag_retag.
Qed.

Lemma retag_tree_id f (t : treeview) : (∀ j g, f j g = g) → retag_tree f t = t.
Proof.
  intros Hf. destruct t as [rs k]. unfold retag_tree. simpl. f_equal.
  rewrite <- (map_id rs) at 2. apply map_ext. intros n.
  induction n as [i tx v g s ch IH] using node_nested_ind. simpl. rewrite Hf. f_equal.
  rewrite <- (map_id ch) at 2. apply map_ext_Forall, IH.
Qed.

Lemma iid_retag f n : iid (retag f n) = iid n.
Proof. by destruct n. Qed.

Lemma text_retag f n : text (retag f n) = text n.
Proof. by destruct n. Qed.


Lemma subtree_retag f (n : node) : subtree (retag f n) = map (retag f) (subtree n).
Proof.
  induction n as [i t v g s ch IH] using node_nested_ind. simpl. f_equal.
  induction IH as [ | c ch Hc _ IHch ]; simpl; [ done | ].
  by rewrite map_app, Hc, IHch.
Qed.

Lemma flat_subtree_retag f (ns : list node) :
  flat_map subtree (map (retag f) ns) = map (retag f) (flat_map subtree ns).
Proof.
  induction ns as [ | n ns IH ]; simpl; [ done | ].
  by rewrite map_app, subtree_retag, IH.
Qed.


Lemma set_tags_retag i g (n : node) : set_tags i g n = retag (assign i g) n.
Proof.
  induction n as [j t v g0 s ch IH] using node_nested_ind. simpl.
  f_equal. apply map_ext_Forall, IH.
Qed.

Lemma item_set_tags_retag i g (t : treeview) :
  item_set_tags i g t = retag_tree (assign i g) t.
Proof.
  unfold item_set_tags, retag_tree. f_equal. apply map_ext. intros n.
  apply set_tags_retag.
Qed.

Lemma untag_loop (ids : list nat) (t : treeview) :
  fold_left (λ t item, item_set_tags item [] t) ids t = retag_tree (untag ids) t.
Proof.
  revert t. induction ids as [ | i ids IH ]; intros t; simpl.
  - symmetry. by apply retag_tree_id.
  - rewrite IH, item_set_tags_retag, retag_tree_retag_tree.
    apply retag_tree_ext. intros j g. unfold untag, assign.
    destruct (Nat.eqb_spec j i) as [ -> | Hne ].
    + rewrite (bool_decide_eq_true_2 (i ∈ i :: ids)) by left.
      by destruct (bool_decide (i ∈ ids)).
    + rewrite (bool_decide_ext (j ∈ i :: ids) (j ∈ ids)); [ done | ].
      rewrite elem_of_cons. split; [ by intros [ ? | ? ] | by right ].
Qed.

Lemma mark_nil j g : mark [] j g = g.
Proof. unfold mark. case_bool_decide as Hj; [ by apply elem_of_nil in Hj | done ]. Qed.

Lemma mark_mark (a b : list nat) j g : mark b j (mark a j g) = mark (a ++ b) j g.
Proof.
  unfold mark. rewrite (bool_decide_ext (j ∈ a ++ b) (j ∈ a ∨ j ∈ b)) by apply elem_of_app.
  rewrite bool_decide_or. by destruct (bool_decide (j ∈ a)), (bool_decide (j ∈ b)).
Qed.

Lemma hits_cons q (n : node) (ns : list node) : hits q (n :: ns) = hits q [n] ++ hits q ns.
Proof. unfold hits. simpl. by rewrite List.app_nil_r, filter_app, fmap_app. Qed.

Lemma hits_node q i tx v g s (ch : list node) :
  hits q [Node i tx v g s ch]
  = (if contains q (lower tx) then [i] else []) ++ hits q ch.
Proof.
  unfold hits. simpl. rewrite List.app_nil_r, filter_cons.
  change (hit q (Node i tx v g s ch)) with (contains q (lower tx)).
  destruct (decide (contains q (lower tx) = true)) as [ Hy | Hn ].
  - by rewrite Hy.
  - apply not_true_is_false in Hn. by rewrite Hn.
Qed.

Lemma search_loop q (F : node → treeview → treeview) (cs : list node) :
  Forall (λ c, ∀ t, F c t = retag_tree (mark (hits q [c])) t) cs →
  ∀ t, fold_left (λ t c, F c t) cs t = retag_tree (mark (hits q cs)) t.
Proof.
  induction 1 as [ | c cs Hc _ IH ]; intros t; simpl.
  - symmetry. apply retag_tree_id. intros j g. apply mark_nil.
  - rewrite IH, Hc, retag_tree_retag_tree, (hits_cons q c cs).
    apply retag_tree_ext. intros j g. apply mark_mark.
Qed.

Lemma search_in_tree_retag q (n : node) (t : treeview) :
  search_in_tree q n t = retag_tree (mark (hits q [n])) t.
Proof.
  revert t. induction n as [i tx v g s ch IH] using node_nested_ind. intros t.
  simpl. rewrite (search_loop q (search_in_tree q) ch IH).
  assert ((if contains q (lower tx) then item_set_tags i [search_match] t else t)
          = retag_tree (mark (if contains q (lower tx) then [i] else [])) t) as ->.
  { destruct (contains q (lower tx)).
    - rewrite item_set_tags_retag. apply retag_tree_ext. intros j g0.
      unfold assign, mark. destruct (Nat.eqb_spec j i) as [ -> | Hne ].
      + by rewrite bool_decide_eq_true_2 by left.
      + rewrite bool_decide_eq_false_2; [ done | ].
        by intros ?%list_elem_of_singleton.
    - symmetry. apply retag_tree_id. intros j g0. apply mark_nil. }
  rewrite retag_tree_retag_tree. apply retag_tree_ext. intros j g0.
  by rewrite mark_mark, hits_node.
Qed.

Lemma hits_retag q f (ns : list node) : hits q (map (retag f) ns) = hits q ns.
Proof.
  unfold hits. rewrite flat_subtree_retag.
  induction (flat_map subtree ns) as [ | n l IH ]; [ done | ].
  change (map (retag f) (n :: l)) with (retag f n :: map (retag f) l).
  rewrite !filter_cons.
  assert (hit q (retag f n) = hit q n) as -> by (unfold hit; by rewrite text_retag).
  destruct (decide _); by rewrite ?fmap_cons, ?iid_retag, IH.
Qed.

(** [on_search_change] as one change of tags. *)
Lemma on_search_change_retag (search_var : string) (t : treeview) :
  on_search_change search_var t =
  retag_tree (λ j g,
      if nonempty (lower search_var)
      then mark (hits (lower search_var) (roots t)) j (untag (get_all_items t) j g)
      else untag (get_all_items t) j g) t.
Proof.
  unfold on_search_change. rewrite untag_loop.
  destruct (nonempty (lower search_var)); [ | done ].
  rewrite (search_loop (lower search_var) (search_in_tree (lower search_var))).
  - rewrite retag_tree_retag_tree. simpl. by rewrite hits_retag.
  - rewrite Forall_forall. intros c _ t'. apply search_in_tree_retag.
Qed.

(** [get_all_items] returns every item of the tree. *)
Lemma get_all_items_below_complete (n m : node) :
  m ∈ flat_map subtree (children n) → iid m ∈ get_all_items_below n.
Proof.
  revert m. induction n as [i tx v g s ch IH] using node_nested_ind. intros m. simpl.
  rewrite elem_of_flat_map. intros [c [Hc Hm]].
  rewrite Forall_forall in IH. specialize (IH c Hc m).
  destruct c as [ci ct cv cg cs cch]. simpl in Hm, IH.
  apply elem_of_cons in Hm as [ -> | Hm ].
  - apply elem_of_app. left. apply list_elem_of_fmap. by exists (Node ci ct cv cg cs cch).
  - apply elem_of_app. right. apply elem_of_flat_map.
    exists (Node ci ct cv cg cs cch). auto.
Qed.

Lemma get_all_items_complete (t : treeview) (n : node) :
  n ∈ items t → iid n ∈ get_all_items t.
Proof.
  apply (get_all_items_below_complete (Node 0 "" "" [] JNull (roots t)) n).
Qed.

End Search.

Section SearchClaim.
Import Str StrFacts.








End SearchClaim.

(** ** Routing a selection *)

Section Routing.
Import Str StrFacts.






End Routing.

(** ** The document viewer *)

Section ViewerFacts.
Context `{Libs}.

Lemma lookup_foldl_delete (ps : list string) (fs : gmap string bytes) (q : string) :
  foldl (λ fs p, delete p fs) fs ps !! q = if bool_decide (q ∈ ps) then None else fs !! q.
Proof.
  revert fs. induction ps as [ | p ps IH ]; intros fs.
  - case_bool_decide as Hq; [ by apply elem_of_nil in Hq | done ].
  - cbn [foldl]. rewrite IH. destruct (decide (q = p)) as [ -> | Hne ].
    + rewrite lookup_delete_eq, (bool_decide_eq_true_2 (p ∈ p :: ps)) by left.
      by case_bool_decide.
    + rewrite lookup_delete_ne by done.
      destruct (bool_decide_reflect (q ∈ ps)) as [ Hin | Hout ].
      * by rewrite bool_decide_eq_true_2 by (by right).
      * rewrite bool_decide_eq_false_2; [ done | ].
        by intros [ ? | ? ]%elem_of_cons.
Qed.

(** [cleanup_temp_files] removes the tracked files, keeps the others and
    empties the list. *)
Lemma cleanup_temp_files_spec (st : app) :
  temp_files (cleanup_temp_files st) = []
  ∧ ∀ q, files (cleanup_temp_files st) !! q
         = if bool_decide (q ∈ temp_files st) then None else files st !! q.
Proof. split; [ done | ]. intros q. apply lookup_foldl_delete. Qed.

(** The renderers do not touch the scratch files. *)
Lemma render_image_scratch (p : string) (st : app) :
  temp_files (render_image p st) = temp_files st ∧ files (render_image p st) = files st.
Proof.
  unfold render_image. destruct (read_file (files st) p) as [ data | e ]; simpl; [ | done ].
  by destruct (image_open data).
Qed.

Lemma render_pdf_scratch (p : string) (st : app) :
  temp_files (render_pdf p st) = temp_files st ∧ files (render_pdf p st) = files st.
Proof.
  unfold render_pdf. destruct (read_file (files st) p) as [ data | e ]; simpl; [ | done ].
  destruct (fitz_open data) as [ pages | e ]; simpl; [ | done ].
  unfold show_current_page. simpl. by destruct (0 <? pages).
Qed.

(** The scratch files after [render_document]: none when decoding raised
    or the file name is not a string, otherwise the one new file, which
    holds the decoded payload and whose name was chosen after the
    cleanup. *)
Lemma render_document_scratch (base64_data filename : json) (st : app) :
  let st0 := cleanup_temp_files st in
  let st' := render_document base64_data filename st in
  match decode base64_data, filename with
  | Ret data, JString name =>
      let p := mkstemp (files st0) (Str.lower (splitext_ext name)) in
      temp_files st' = [p] ∧ files st' = (<[p := data]> (files st0))
  | _, _ => temp_files st' = [] ∧ files st' = files st0
  end.
Proof.
  intros st0 st'. subst st'. unfold render_document. fold st0.
  destruct (decode base64_data) as [ data | e ]; simpl; [ | done ].
  destruct filename as [ | | | | name | | ]; simpl; try done.
  case_bool_decide; [ | destruct (String.eqb _ _) ];
    try match goal with
        | |- context [ render_image ?p ?s ] =>
            destruct (render_image_scratch p s) as [-> ->]
        | |- context [ render_pdf ?p ?s ] =>
            destruct (render_pdf_scratch p s) as [-> ->]
        end; done.
Qed.

End ViewerFacts.

Section ViewerClaims.
Context `{Libs}.




(** C9. After a successful render of an image the page counters are
    [current_page = 1] and [total_pages = 1], and the label reads
    [Page: 2/1]: [render_image] sets the current page to 1, where
    [render_pdf] sets it to 0 and [update_page_controls] adds one. *)
Theorem image_render_page_state (base64_data : json) (name : string)
    (data : bytes) (st : app) :
  decode base64_data = Ret data →
  Str.lower (splitext_ext name) ∈ image_exts →
  image_open data = Ret tt →
  let st' := render_document base64_data (JString name) st in
  current_document st' = PhotoImage data
  ∧ current_page st' = 1 ∧ total_pages st' = 1
  ∧ page_label st' = "Page: 2/1".
Proof.
  intros Hdata Himg Hopen st'. subst st'. unfold render_document.
  rewrite Hdata. simpl. rewrite bool_decide_eq_true_2 by done.
  unfold render_image, read_file. simpl. rewrite lookup_insert_eq. simpl.
  by rewrite Hopen.
Qed.

Lemma list_index_of_first (name : string) (names : list json) (i : nat) :
  list_index_of name names = Some i →
  names !! i = Some (JString name)
  ∧ ∀ j, (j < i)%nat → names !! j ≠ Some (JString name).
Proof.
  revert i. induction names as [ | x names IH ]; intros i; simpl; [ done | ].
  assert (∀ i, x ≠ JString name → S <$> list_index_of name names = Some i →
            (x :: names) !! i = Some (JString name)
            ∧ ∀ j, (j < i)%nat → (x :: names) !! j ≠ Some (JString name)) as Hrest.
  { intros k Hx Hk. destruct (list_index_of name names) as [ k' | ]; [ | done ].
    injection Hk as <-. destruct (IH k' eq_refl) as [Hat Hbefore]. split; [ done | ].
    intros [ | j ] Hj; simpl; [ congruence | apply Hbefore; lia ]. }
  destruct x as [ | | | | s | | ]; try (apply Hrest; discriminate).
  destruct (String.eqb_spec s name) as [ -> | Hne ].
  - intros [= <-]. split; [ done | intros j Hj; lia ].
  - apply Hrest. congruence.
Qed.

Lemma list_index_of_none (name : string) (names : list json) :
  list_index_of name names = None → JString name ∉ names.
Proof.
  induction names as [ | x names IH ]; simpl; [ intros _; apply not_elem_of_nil | ].
  assert (x ≠ JString name → S <$> list_index_of name names = None →
          JString name ∉ x :: names) as Hrest.
  { intros Hx Hk. destruct (list_index_of name names); [ done | ].
    intros [ ? | ? ]%elem_of_cons; [ congruence | by apply IH ]. }
  destruct x as [ | | | | s | | ]; try (apply Hrest; discriminate).
  destruct (String.eqb_spec s name) as [ -> | Hne ]; [ done | ].
  apply Hrest. congruence.
Qed.

(** C4 (amended). With a current document name, a chosen destination and
    a names array in the document: if the name is in the array, [i] is
    the first index that holds it and, when [payloads[i]] decodes, the
    destination holds exactly the decoded bytes and a success message is
    shown; if the name is not in the array any more,
    [save_current_document] changes nothing: no file is written and no
    message is shown. *)
Theorem save_resolves_by_filename (save_path : string) (st : app)
    (kvs : list (string * json)) (names : list json) :
  current_json st = JObject kvs →
  Py.dict_item names_key kvs = Some (JArray names) →
  Str.nonempty (current_doc_name st) = true →
  Str.nonempty save_path = true →
  match list_index_of (current_doc_name st) names with
  | Some i =>
      (names !! i = Some (JString (current_doc_name st))
       ∧ ∀ j, (j < i)%nat → names !! j ≠ Some (JString (current_doc_name st)))
      ∧ ∀ payloads base64_data data,
          Py.dict_item payloads_key kvs = Some (JArray payloads) →
          payloads !! i = Some base64_data →
          decode base64_data = Ret data →
          files (save_current_document save_path st) = (<[save_path := data]> (files st))
          ∧ dialogs (save_current_document save_path st)
            = dialogs st ++ [ShowInfo "Success" "Document saved successfully!"]
  | None =>
      (JString (current_doc_name st) ∉ names)
      ∧ save_current_document save_path st = st
  end.
Proof.
  intros Hjson Hnames Hname Hpath.
  unfold save_current_document, get_document_index.
  rewrite Hname, Hpath, Hjson. simpl. rewrite Hnames.
  destruct (list_index_of (current_doc_name st) names) as [ i | ] eqn:Hidx; simpl.
  - split; [ by apply list_index_of_first | ].
    intros payloads base64_data data Hpay Hi Hdata.
    rewrite Hpay. simpl. rewrite PyFacts.list_item_nat, Hi. simpl.
    rewrite Hdata. simpl. split; [ | done ].
    apply insert_insert_eq.
  - split; [ by apply list_index_of_none | done ].
Qed.

End ViewerClaims.

(** ** The viewer on the example scenario *)

Section ViewerExamples.

Example two_renders :
  temp_files after_image = ["/tmp/tmp0.png"]
  ∧ temp_files after_pdf = ["/tmp/tmp0.pdf"]
  ∧ map_to_list (files after_pdf) = [("/tmp/tmp0.pdf", [Byte.x44; Byte.x45; Byte.x46])]
  ∧ (current_page after_pdf, total_pages after_pdf, page_label after_pdf)
    = (0, 3, "Page: 1/3").
Proof. vm_compute. done. Qed.




Lemma image_render_page_state_witness :
  current_page after_image = 1 ∧ total_pages after_image = 1
  ∧ page_label after_image = "Page: 2/1".
Proof.
  destruct (@image_render_page_state sample_libs (JString "QUJD") "a.png"
              [Byte.x41; Byte.x42; Byte.x43] (loaded scenario))
    as [_ Hpages].
  - reflexivity.
  - vm_compute. apply elem_of_cons. right. apply elem_of_cons. right. left.
  - reflexivity.
  - exact Hpages.
Defined.

(** C4, as stated, fails: when the name of the current document is not in
    the document any more, saving reports nothing: the state, message
    boxes included, is unchanged. *)
Lemma save_of_missing_document_is_silent :
  current_doc_name reloaded = "b.pdf"
  ∧ @get_document_index "b.pdf" reloaded = Ret None
  ∧ dialogs (@save_current_document sample_libs "/home/out.pdf" reloaded) = []
  ∧ files (@save_current_document sample_libs "/home/out.pdf" reloaded) !! "/home/out.pdf" = None.
Proof. vm_compute. done. Qed.

Lemma save_resolves_by_filename_witness :
  files (@save_current_document sample_libs "/home/out.pdf" after_pdf) !! "/home/out.pdf"
    = Some [Byte.x44; Byte.x45; Byte.x46]
  ∧ save_current_document (H := sample_libs) "/home/out.pdf" reloaded = reloaded.
Proof.
  split.
  - destruct (@save_resolves_by_filename sample_libs "/home/out.pdf" after_pdf
                [ ("nombre_documentos", JArray [JString "a.png"; JString "b.pdf"]);
                  ("lista_documentos", JArray [JString "QUJD"; JString "REVG"]);
                  ("meta", JObject [("x", JInt 1)]) ]
                [JString "a.png"; JString "b.pdf"] eq_refl eq_refl eq_refl eq_refl)
      as [_ Hsave].
    destruct (Hsave [JString "QUJD"; JString "REVG"] (JString "REVG")
                [Byte.x44; Byte.x45; Byte.x46] eq_refl eq_refl eq_refl) as [-> _].
    apply lookup_insert_eq.
  - exact (proj2 (@save_resolves_by_filename sample_libs "/home/out.pdf" reloaded
                    [ ("nombre_documentos", JArray [JString "other.png"]);
                      ("lista_documentos", JArray [JString "QUJD"]) ]
                    [JString "other.png"] eq_refl eq_refl eq_refl eq_refl)).
Defined.

End ViewerExamples.

(** * Further properties *)

(** ** Page navigation *)

Section Paging.
Context `{Libs}.

(** [show_current_page] changes the label or shows a message, nothing
    else. *)
Lemma show_current_page_paging (st : app) :
  current_document (show_current_page st) = current_document st
  ∧ current_page (show_current_page st) = current_page st
  ∧ total_pages (show_current_page st) = total_pages st.
Proof.
  unfold show_current_page.
  destruct (current_document st) as [ | img | d pages ] eqn:Hdoc; try done.
  by destruct (current_page st <? pages).
Qed.

Lemma next_page_step (st : app) (d : bytes) (pages : Z) :
  current_document st = FitzDocument d pages → total_pages st = pages →
  current_document (next_page st) = FitzDocument d pages
  ∧ total_pages (next_page st) = pages
  ∧ current_page (next_page st)
    = if current_page st <? pages - 1 then current_page st + 1 else current_page st.
Proof.
  intros Hdoc Htot. unfold next_page. rewrite Hdoc, Htot.
  destruct (current_page st <? pages - 1); [ | done ].
  destruct (show_current_page_paging (with_pages (current_page st + 1) pages st))
    as [-> [-> ->]].
  done.
Qed.

Lemma prev_page_step (st : app) (d : bytes) (pages : Z) :
  current_document st = FitzDocument d pages → total_pages st = pages →
  current_document (prev_page st) = FitzDocument d pages
  ∧ total_pages (prev_page st) = pages
  ∧ current_page (prev_page st)
    = if 0 <? current_page st then current_page st - 1 else current_page st.
Proof.
  intros Hdoc Htot. unfold prev_page. rewrite Hdoc.
  destruct (0 <? current_page st); [ | done ].
  destruct (show_current_page_paging (with_pages (current_page st - 1) (total_pages st) st))
    as [-> [-> ->]].
  done.
Qed.

(** X1. Pressing Next [k] times from the first page of a PDF of [pages] pages
    leads to page [min k (pages - 1)]: the last page is reached after
    [pages - 1] presses and every further press changes nothing. *)
Theorem next_page_iterated (st : app) (d : bytes) (pages : Z) (k : nat) :
  current_document st = FitzDocument d pages → total_pages st = pages →
  current_page st = 0 → 1 ≤ pages →
  current_page (Nat.iter k next_page st) = Z.min (Z.of_nat k) (pages - 1)
  ∧ (pages - 1 ≤ Z.of_nat k →
     next_page (Nat.iter k next_page st) = Nat.iter k next_page st).
Proof.
  intros Hdoc Htot Hcur Hpages.
  assert (current_document (Nat.iter k next_page st) = FitzDocument d pages
          ∧ total_pages (Nat.iter k next_page st) = pages
          ∧ current_page (Nat.iter k next_page st) = Z.min (Z.of_nat k) (pages - 1))
    as [Hd [Ht Hc]].
  { induction k as [ | k [IHd [IHt IHc]] ]; [ split; [ done | split; [ done | simpl; lia ] ] | ].
    rewrite Nat.iter_succ. destruct (next_page_step _ d pages IHd IHt) as [-> [-> ->]].
    split; [ done | ]. split; [ done | ]. rewrite IHc.
    destruct (Z.ltb_spec (Z.min (Z.of_nat k) (pages - 1)) (pages - 1)); lia. }
  split; [ done | ]. intros Hlast. unfold next_page at 1. rewrite Hd, Ht, Hc.
  destruct (Z.ltb_spec (Z.min (Z.of_nat k) (pages - 1)) (pages - 1)); [ lia | done ].
Qed.

(** X2. On a page of a PDF other than the last, Previous undoes Next, and on a
    page other than the first, Next undoes Previous: the state, label
    included, is the one before, provided the label showed the current
    page. *)
Theorem prev_next_round_trip (st : app) (d : bytes) (pages : Z) :
  current_document st = FitzDocument d pages → total_pages st = pages →
  page_label st = page_text st →
  (0 ≤ current_page st < pages - 1 → prev_page (next_page st) = st)
  ∧ (0 < current_page st < pages → next_page (prev_page st) = st).
Proof.
  intros Hdoc Htot Hlabel. destruct st as [j t tf name doc cur tot vd tab label fs dl].
  unfold page_text in Hlabel.
  cbn [current_document total_pages current_page page_label] in Hdoc, Htot, Hlabel.
  subst doc tot label. split; intros Hcur; cbn [current_page] in Hcur.
  - unfold prev_page, next_page, show_current_page, update_page_controls.
    repeat (cbn; match goal with
                 | |- context [ Z.ltb ?a ?b ] => destruct (Z.ltb_spec a b); try lia
                 end).
    by replace (cur + 1 - 1) with cur by lia.
  - unfold prev_page, next_page, show_current_page, update_page_controls.
    repeat (cbn; match goal with
                 | |- context [ Z.ltb ?a ?b ] => destruct (Z.ltb_spec a b); try lia
                 end).
    by replace (cur - 1 + 1) with cur by lia.
Qed.

End Paging.

(** ** What saving changes *)

Section Saving.
Context `{Libs}.

(** [save_current_document] changes at most the content of the
    destination and the list of messages. *)
Lemma save_current_document_changes (save_path : string) (st : app) :
  ∃ fs dl,
    save_current_document save_path st
    = App (current_json st) (tree st) (temp_files st) (current_doc_name st)
          (current_document st) (current_page st) (total_pages st)
          (value_display st) (notebook_tab st) (page_label st) fs dl
    ∧ (fs = files st ∨ ∃ data, fs = <[save_path := data]> (files st)).
Proof.
  destruct st as [j t tf name doc cur tot vd tab label fs dl].
  unfold save_current_document. cbn [current_doc_name].
  destruct (Str.nonempty name); cbn [negb]; [ | by eexists _, _; split; [ | left ] ].
  destruct (Str.nonempty save_path); cbn [negb]; [ | by eexists _, _; split; [ | left ] ].
  destruct (get_document_index name _) as [ [ i | ] | e ];
    try (by eexists _, _; split; [ | left ]).
  destruct (_ ≫= _) as [ base64_data | e ];
    [ | by eexists _, _; split; [ | left ] ].
  destruct (decode base64_data) as [ data | e ].
  - eexists _, _. split; [ reflexivity | right ]. exists data.
    cbn. apply insert_insert_eq.
  - eexists _, _. split; [ reflexivity | right ]. by exists [].
Qed.

(** X5. Saving never changes anything but the destination file and the list
    of messages: the document, the tree, the scratch files, the viewer
    and every other file on the disk are as before. *)
Theorem save_current_document_frame (save_path : string) (st : app) :
  let st' := save_current_document save_path st in
  current_json st' = current_json st ∧ tree st' = tree st
  ∧ temp_files st' = temp_files st ∧ current_doc_name st' = current_doc_name st
  ∧ current_document st' = current_document st
  ∧ current_page st' = current_page st ∧ total_pages st' = total_pages st
  ∧ value_display st' = value_display st ∧ notebook_tab st' = notebook_tab st
  ∧ page_label st' = page_label st
  ∧ ∀ q, q ≠ save_path → files st' !! q = files st !! q.
Proof.
  intros st'. subst st'.
  destruct (save_current_document_changes save_path st) as [fs [dl [-> Hfs]]].
  repeat (split; [ done | ]). intros q Hq. cbn [files].
  destruct Hfs as [ -> | [data ->] ]; [ done | ]. by rewrite lookup_insert_ne.
Qed.

(** X6. When the payload of the resolved document does not decode, the
    destination has already been opened for writing: it is left empty,
    whatever it held, and the failure is reported. *)
Theorem save_truncates_on_decode_error (save_path : string) (st : app)
    (kvs : list (string * json)) (names payloads : list json) (i : nat)
    (base64_data : json) (e : exn) :
  current_json st = JObject kvs →
  Py.dict_item names_key kvs = Some (JArray names) →
  Py.dict_item payloads_key kvs = Some (JArray payloads) →
  Str.nonempty (current_doc_name st) = true →
  Str.nonempty save_path = true →
  list_index_of (current_doc_name st) names = Some i →
  payloads !! i = Some base64_data →
  decode base64_data = Raise e →
  files (save_current_document save_path st) = <[save_path := []]> (files st)
  ∧ dialogs (save_current_document save_path st)
    = dialogs st ++ [ShowError "Error" "Failed to save document: " e].
Proof.
  intros Hjson Hnames Hpay Hname Hpath Hidx Hi Hdec.
  unfold save_current_document, get_document_index.
  rewrite Hname, Hpath, Hjson. simpl. rewrite Hnames, Hidx. simpl.
  rewrite Hpay. simpl. rewrite PyFacts.list_item_nat, Hi. simpl.
  by rewrite Hdec.
Qed.

End Saving.

(** ** Invariants over every sequence of events *)

Section Invariants.
Context `{Libs}.

Lemma render_image_paging_ok (p : string) (st : app) :
  paging_ok st → paging_ok (render_image p st).
Proof.
  intros Hst. unfold render_image.
  destruct (_ ≫= _) as [ data | e ]; [ exact I | exact Hst ].
Qed.

Lemma render_pdf_paging_ok (p : string) (st : app) :
  paging_ok st → paging_ok (render_pdf p st).
Proof.
  intros Hst. unfold render_pdf.
  destruct (_ ≫= _) as [ [data pages] | e ]; [ | exact Hst ].
  unfold paging_ok.
  destruct (show_current_page_paging
              (with_pages 0 pages (with_document (FitzDocument data pages) st)))
    as [Hd [Hc Ht]].
  cbn [current_document total_pages current_page with_tab].
  rewrite Hd, Hc, Ht. cbn. split; [ done | ]. split; [ done | by right ].
Qed.

Lemma render_document_paging_ok (base64_data filename : json) (st : app) :
  paging_ok st → paging_ok (render_document base64_data filename st).
Proof.
  intros Hst. unfold render_document.
  destruct (_ ≫= _) as [ [file_data name] | e ]; [ | exact Hst ].
  case_bool_decide; [ by apply render_image_paging_ok | ].
  destruct (String.eqb _ _); [ by apply render_pdf_paging_ok | exact Hst ].
Qed.

Lemma prev_page_paging_ok (st : app) : paging_ok st → paging_ok (prev_page st).
Proof.
  unfold paging_ok at 1. intros Hst.
  destruct (current_document st) as [ | img | d pages ] eqn:Hdoc.
  - unfold prev_page. rewrite Hdoc. unfold paging_ok. by rewrite Hdoc.
  - unfold prev_page. rewrite Hdoc. unfold paging_ok. by rewrite Hdoc.
  - destruct Hst as [Htot [H0 Hlt]].
    destruct (prev_page_step st d pages Hdoc Htot) as [Hd [Ht Hc]].
    unfold paging_ok. rewrite Hd, Ht, Hc.
    destruct (Z.ltb_spec 0 (current_page st)); split; try done; lia.
Qed.

Lemma next_page_paging_ok (st : app) : paging_ok st → paging_ok (next_page st).
Proof.
  unfold paging_ok at 1. intros Hst.
  destruct (current_document st) as [ | img | d pages ] eqn:Hdoc.
  - unfold next_page. rewrite Hdoc. unfold paging_ok. by rewrite Hdoc.
  - unfold next_page. rewrite Hdoc. unfold paging_ok. by rewrite Hdoc.
  - destruct Hst as [Htot [H0 Hlt]].
    destruct (next_page_step st d pages Hdoc Htot) as [Hd [Ht Hc]].
    unfold paging_ok. rewrite Hd, Ht, Hc.
    destruct (Z.ltb_spec (current_page st) (pages - 1)); split; try done; lia.
Qed.

Lemma handle_paging_ok (e : event) (st : app) : paging_ok st → paging_ok (handle e st).
Proof.
  intros Hst. destruct e as [ [ doc | e ] | path | q | | | save_path ]; cbn [handle].
  - exact Hst.
  - exact Hst.
  - unfold on_tree_select.
    destruct (resolve_selection _ _) as [ [ | b f | v ] | e ]; cbn; try exact Hst.
    by apply render_document_paging_ok.
  - exact Hst.
  - by apply prev_page_paging_ok.
  - by apply next_page_paging_ok.
  - destruct (save_current_document_changes save_path st) as [fs [dl [-> _]]].
    exact Hst.
Qed.

(** X3. Whatever the user does, while a PDF is the current document the page
    counter stays within its pages and [total_pages] is its page count. *)
Theorem paging_invariant (events : list event) (disk : gmap string bytes) :
  paging_ok (run events (initial disk)).
Proof.
  assert (paging_ok (initial disk)) as Hinit by exact I.
  revert Hinit. generalize (initial disk).
  induction events as [ | e events IH ]; intros st Hst; [ done | ].
  apply IH. by apply handle_paging_ok.
Qed.

Lemma show_current_page_scratch (st : app) :
  temp_files (show_current_page st) = temp_files st
  ∧ files (show_current_page st) = files st.
Proof.
  unfold show_current_page. destruct (current_document st) as [ | img | d pages ]; try done.
  by destruct (current_page st <? pages).
Qed.

Lemma render_document_scratch_ok (base64_data filename : json) (st : app) :
  scratch_ok (render_document base64_data filename st).
Proof.
  pose proof (render_document_scratch base64_data filename st) as Hs. cbv zeta in Hs.
  destruct (decode base64_data) as [ data | e ];
    [ destruct filename as [ | | | | name | | ] | ];
    try (left; apply Hs).
  right. destruct Hs as [-> ->]. eexists. split; [ done | ].
  rewrite lookup_insert_eq. by eexists.
Qed.

Lemma handle_scratch_ok (e : event) (st : app) : scratch_ok st → scratch_ok (handle e st).
Proof.
  intros Hst. destruct e as [ [ doc | e ] | path | q | | | save_path ]; cbn [handle].
  - exact Hst.
  - exact Hst.
  - unfold on_tree_select.
    destruct (resolve_selection _ _) as [ [ | b f | v ] | e ]; cbn; try exact Hst.
    apply render_document_scratch_ok.
  - exact Hst.
  - unfold prev_page. destruct (current_document st); try exact Hst.
    destruct (0 <? current_page st); [ | exact Hst ].
    unfold scratch_ok. by destruct (show_current_page_scratch
      (with_pages (current_page st - 1) (total_pages st) st)) as [-> ->].
  - unfold next_page. destruct (current_document st); try exact Hst.
    destruct (current_page st <? total_pages st - 1); [ | exact Hst ].
    unfold scratch_ok. by destruct (show_current_page_scratch
      (with_pages (current_page st + 1) (total_pages st) st)) as [-> ->].
  - destruct (save_current_document_changes save_path st) as [fs [dl [-> Hfs]]].
    unfold scratch_ok in *. cbn [temp_files files].
    destruct Hst as [ Hnone | [p [Hp Hsome]] ]; [ by left | right ].
    exists p. split; [ done | ].
    destruct Hfs as [ -> | [data ->] ]; [ done | ].
    destruct (decide (save_path = p)) as [ -> | Hne ].
    + rewrite lookup_insert_eq. by eexists.
    + by rewrite lookup_insert_ne.
Qed.

(** X4. Whatever the user does, at most one scratch file is tracked, and the
    tracked file is on the disk. *)
Theorem scratch_invariant (events : list event) (disk : gmap string bytes) :
  scratch_ok (run events (initial disk)).
Proof.
  assert (scratch_ok (initial disk)) as Hinit by (by left).
  revert Hinit. generalize (initial disk).
  induction events as [ | e events IH ]; intros st Hst; [ done | ].
  apply IH. by apply handle_scratch_ok.
Qed.

End Invariants.

(** ** Population builds the tree of the document *)

Section Build.

Lemma forest_ids_cons (n : node) (ns : list node) :
  forest_ids (n :: ns) = iid n :: forest_ids (children n) ++ forest_ids ns.
Proof.
  unfold forest_ids. cbn [flat_map]. by rewrite subtree_unfold, fmap_app, fmap_cons.
Qed.

Lemma forest_ids_single (n : node) :
  forest_ids [n] = iid n :: forest_ids (children n).
Proof.
  rewrite forest_ids_cons. change (forest_ids []) with (@nil nat).
  by rewrite List.app_nil_r.
Qed.

Lemma forest_ids_app (a b : list node) :
  forest_ids (a ++ b) = forest_ids a ++ forest_ids b.
Proof. unfold forest_ids. by rewrite flat_map_app, fmap_app. Qed.

Lemma add_child_graft (p : nat) (new n : node) :
  add_child p new n = graft_node p [new] n.
Proof.
  induction n as [i t v g s ch IH] using node_nested_ind. cbn.
  f_equal. by rewrite (map_ext_Forall _ _ IH).
Qed.

(** Grafting under an id that the forest does not use changes nothing. *)
Lemma graft_node_absent (p : nat) (f : list node) (n : node) :
  Forall (λ i, i ≠ p) (forest_ids [n]) → graft_node p f n = n.
Proof.
  induction n as [i t v g s ch IH] using node_nested_ind.
  rewrite forest_ids_single. cbn [iid children].
  intros [Hi Hch]%Forall_cons. cbn.
  destruct (Nat.eqb_spec i p) as [ ? | _ ]; [ done | ]. f_equal.
  rewrite <- (map_id ch) at 2. apply map_ext_Forall.
  induction IH as [ | c ch Hc _ IHch ]; [ done | ].
  rewrite forest_ids_cons in Hch.
  change (iid c :: forest_ids (children c) ++ forest_ids ch)
    with ((iid c :: forest_ids (children c)) ++ forest_ids ch) in Hch.
  apply Forall_app in Hch as [Hc' Hch]. constructor; [ | by apply IHch ].
  apply Hc. by rewrite forest_ids_single.
Qed.

Lemma map_graft_absent (p : nat) (f ns : list node) :
  Forall (λ i, i ≠ p) (forest_ids ns) → map (graft_node p f) ns = ns.
Proof.
  induction ns as [ | n ns IH ]; [ done | ].
  rewrite forest_ids_cons.
  change (iid n :: forest_ids (children n) ++ forest_ids ns)
    with ((iid n :: forest_ids (children n)) ++ forest_ids ns).
  intros [Hn Hns]%Forall_app. cbn [map]. rewrite IH by done. f_equal.
  apply graft_node_absent. by rewrite forest_ids_single.
Qed.

(** Two grafts under the same id are one graft of both forests, when the
    first forest does not use the id. *)
Lemma graft_node_app (p : nat) (f g : list node) (n : node) :
  Forall (λ i, i ≠ p) (forest_ids f) →
  graft_node p g (graft_node p f n) = graft_node p (f ++ g) n.
Proof.
  intros Hf. induction n as [i t v tg s ch IH] using node_nested_ind. cbn.
  f_equal. destruct (Nat.eqb i p).
  - rewrite map_app, map_map, (map_graft_absent p g f Hf), <- List.app_assoc. f_equal.
    apply map_ext_Forall, IH.
  - rewrite map_map. apply map_ext_Forall, IH.
Qed.

(** Grafting under an item that has just been grafted as a leaf fills
    that leaf. *)
Lemma graft_node_fill (p q : nat) (tx v : string) (s : json) (sub : list node) (n : node) :
  q ≠ p → Forall (λ i, i ≠ q) (forest_ids [n]) →
  graft_node q sub (graft_node p [Node q tx v [] s []] n)
  = graft_node p [Node q tx v [] s sub] n.
Proof.
  intros Hqp. induction n as [i t v' tg s' ch IH] using node_nested_ind.
  rewrite forest_ids_single. cbn [iid children].
  intros [Hi Hch]%Forall_cons. cbn.
  destruct (Nat.eqb_spec i q) as [ ? | _ ]; [ done | ].
  assert (map (graft_node q sub) (map (graft_node p [Node q tx v [] s []]) ch)
          = map (graft_node p [Node q tx v [] s sub]) ch) as Hmap.
  { rewrite map_map. apply map_ext_Forall.
    induction IH as [ | c ch Hc _ IHch ]; [ done | ].
    rewrite forest_ids_cons in Hch.
    change (iid c :: forest_ids (children c) ++ forest_ids ch)
      with ((iid c :: forest_ids (children c)) ++ forest_ids ch) in Hch.
    apply Forall_app in Hch as [Hc' Hch]. constructor; [ | by apply IHch ].
    apply Hc. by rewrite forest_ids_single. }
  f_equal. destruct (Nat.eqb i p).
  - rewrite map_app, Hmap. cbn. by rewrite Nat.eqb_refl.
  - exact Hmap.
Qed.

(** Grafting adds the ids of the grafted forest and no other. *)
Lemma forest_ids_graft (Q : nat → Prop) (p : nat) (f ns : list node) :
  Forall Q (forest_ids ns) → Forall Q (forest_ids f) →
  Forall Q (forest_ids (map (graft_node p f) ns)).
Proof.
  intros Hns Hf. revert Hns.
  assert (∀ n, Forall Q (forest_ids [n]) → Forall Q (forest_ids [graft_node p f n])) as Hnode.
  { induction n as [i t v tg s ch IH] using node_nested_ind.
    rewrite !forest_ids_single. cbn [iid children graft_node].
    intros [Hi Hch]%Forall_cons. constructor; [ done | ].
    assert (Forall Q (forest_ids (map (graft_node p f) ch))) as Hch'.
    { induction IH as [ | c ch Hc _ IHch ]; [ done | ].
      cbn [map]. rewrite forest_ids_cons in Hch |- *.
      change (iid c :: forest_ids (children c) ++ forest_ids ch)
        with ((iid c :: forest_ids (children c)) ++ forest_ids ch) in Hch.
      apply Forall_app in Hch as [Hc' Hch].
      specialize (Hc ltac:(by rewrite forest_ids_single)).
      rewrite forest_ids_single in Hc.
      change (?a :: ?b ++ ?c) with ((a :: b) ++ c).
      apply Forall_app. split; [ exact Hc | by apply IHch ]. }
    destruct (Nat.eqb i p); [ | done ].
    rewrite forest_ids_app. by apply Forall_app. }
  induction ns as [ | n ns IH ]; [ done | ].
  rewrite forest_ids_cons.
  change (iid n :: forest_ids (children n) ++ forest_ids ns)
    with ((iid n :: forest_ids (children n)) ++ forest_ids ns).
  intros [Hn Hns]%Forall_app. cbn [map].
  change (graft_node p f n :: map (graft_node p f) ns)
    with ([graft_node p f n] ++ map (graft_node p f) ns).
  rewrite forest_ids_app. apply Forall_app. split; [ | by apply IH ].
  apply Hnode. by rewrite forest_ids_single.
Qed.

End Build.

Section Refinement.

Lemma build_step_range (next : nat) (tx v : string) (s : json) (sub rest : list node)
    (n1 n2 : nat) :
  in_range (S next) (sub, n1) → in_range n1 (rest, n2) →
  in_range next (Node next tx v [] s sub :: rest, n2).
Proof.
  unfold in_range. cbn [fst snd]. intros [H1 Hsub] [H2 Hrest].
  split; [ lia | ]. rewrite forest_ids_cons. cbn [iid children].
  constructor; [ lia | ]. apply Forall_app. split.
  - eapply Forall_impl; [ exact Hsub | ]. cbn. lia.
  - eapply Forall_impl; [ exact Hrest | ]. cbn. lia.
Qed.

(** The ids of the built forest are those from [next] up to the
    returned counter. *)
Lemma build_range (data : json) (path : string) (next : nat) :
  in_range next (build data path next).
Proof.
  revert path next.
  induction data as [ | b | z | r | s | l IH | kvs IH ] using json_nested_ind;
    intros path next;
    try (split; [ cbn; lia | cbn; repeat constructor; lia ]).
  - cbn [build]. generalize 0%nat. revert next.
    induction IH as [ | v l Hv _ IHl ]; intros next index.
    + split; [ cbn; lia | constructor ].
    + cbn [build_indices].
      pose proof (Hv (join_path path (Py.str_int (Z.of_nat index))) (S next)) as Hsub.
      destruct (build v _ (S next)) as [sub n1].
      pose proof (IHl n1 (S index)) as Hrest.
      destruct (build_indices build path (S index) l n1) as [rest n2].
      by eapply build_step_range.
  - cbn [build]. revert next.
    induction IH as [ | [k v] kvs Hv _ IHl ]; intros next.
    + split; [ cbn; lia | constructor ].
    + cbn [build_entries].
      pose proof (Hv (join_path path k) (S next)) as Hsub. cbn [snd] in Hsub.
      destruct (build v _ (S next)) as [sub n1].
      pose proof (IHl n1) as Hrest.
      destruct (build_entries build path kvs n1) as [rest n2].
      by eapply build_step_range.
Qed.

(** One step of the two loops: the item of a key or of an index is
    inserted, its value is populated under it, and the tree is the one
    with the finished item grafted. *)
Lemma graft_step (parent : parent_ref) (tx v : string) (s : json)
    (sub : list node) (n1 : nat) (t : treeview) :
  ids_below parent t → in_range (S (next_iid t)) (sub, n1) →
  graft (Some (next_iid t)) (sub, n1) (tree_insert parent tx v s t).2
  = graft parent ([Node (next_iid t) tx v [] s sub], n1) t
  ∧ ids_below parent (graft parent ([Node (next_iid t) tx v [] s sub], n1) t).
Proof.
  intros [Hids Hparent] [Hn1 Hsub]. cbn [fst snd] in Hn1, Hsub.
  assert (Forall (λ i, i ≠ next_iid t) (forest_ids (roots t))) as Hfresh.
  { eapply Forall_impl; [ exact Hids | ]. cbn. lia. }
  split.
  - unfold graft, tree_insert. cbn [fst snd roots]. f_equal.
    destruct parent as [ p | ].
    + rewrite map_map. apply map_ext_Forall.
      clear Hids. induction (roots t) as [ | r rs IHr ]; [ done | ].
      rewrite forest_ids_cons in Hfresh.
      change (iid r :: forest_ids (children r) ++ forest_ids rs)
        with ((iid r :: forest_ids (children r)) ++ forest_ids rs) in Hfresh.
      apply Forall_app in Hfresh as [Hr Hrs]. constructor; [ | by apply IHr ].
      rewrite add_child_graft. apply graft_node_fill; [ lia | ].
      by rewrite forest_ids_single.
    + rewrite map_app, (map_graft_absent _ _ _ Hfresh). cbn.
      by rewrite Nat.eqb_refl.
  - assert (Forall (λ i, (i < n1)%nat)
              (forest_ids [Node (next_iid t) tx v [] s sub])) as Hnew.
    { rewrite forest_ids_single. cbn [iid children]. constructor; [ lia | ].
      eapply Forall_impl; [ exact Hsub | ]. cbn. lia. }
    assert (Forall (λ i, (i < n1)%nat) (forest_ids (roots t))) as Hold.
    { eapply Forall_impl; [ exact Hids | ]. cbn. lia. }
    split; cbn [graft next_iid roots fst snd].
    + destruct parent as [ p | ].
      * by apply forest_ids_graft.
      * rewrite forest_ids_app. by apply Forall_app.
    + destruct parent as [ p | ]; [ lia | done ].
Qed.

(** Two grafts under the same parent, the second forest numbered after
    the first. *)
Lemma graft_graft (parent : parent_ref) (f g : list node) (n1 n2 : nat) (t : treeview) :
  ids_below parent t → in_range (next_iid t) (f, n1) →
  graft parent (g, n2) (graft parent (f, n1) t) = graft parent (f ++ g, n2) t.
Proof.
  intros [Hids Hparent] [Hn1 Hf]. cbn [fst snd] in Hn1, Hf.
  unfold graft. cbn [fst snd roots]. f_equal. destruct parent as [ p | ].
  - rewrite map_map. apply map_ext. intros r. apply graft_node_app.
    eapply Forall_impl; [ exact Hf | ]. cbn. lia.
  - by rewrite List.app_assoc.
Qed.

(** [populate_tree] grafts the forest of the value under the parent and
    leaves the counter after the last id it used. *)
Lemma populate_tree_graft (data : json) :
  ∀ parent path t, ids_below parent t →
    populate_tree parent data path t = graft parent (build data path (next_iid t)) t.
Proof.
  induction data as [ | b | z | r | s | l IH | kvs IH ] using json_nested_ind;
    intros parent path t Hbelow;
    try (unfold graft, tree_insert; cbn; f_equal; destruct parent; [ | done ];
         apply map_ext; intros; apply add_child_graft).
  - cbn [populate_tree build]. generalize 0%nat. revert t Hbelow.
    induction IH as [ | v l Hv _ IHl ]; intros t Hbelow index.
    + cbn. unfold graft. cbn. destruct t as [rs n]. cbn. f_equal.
      destruct parent as [ p | ]; [ | by rewrite List.app_nil_r ].
      rewrite <- (map_id rs) at 1. apply map_ext. intros n0.
      symmetry. clear. induction n0 as [i t v g s ch IH] using node_nested_ind.
      cbn. rewrite List.app_nil_r. f_equal.
      assert (map (graft_node p []) ch = ch) as ->.
      { rewrite <- (map_id ch) at 2. by apply map_ext_Forall. }
      by destruct (Nat.eqb i p).
    + cbn [each_index build_indices].
      set (cp := join_path path (Py.str_int (Z.of_nat index))).
      set (tx := "[" +:+ Py.str_int (Z.of_nat index) +:+ "]").
      pose proof (build_range v cp (S (next_iid t))) as Hsub.
      assert (ids_below (Some (next_iid t)) (tree_insert parent tx cp v t).2) as Hb1.
      { destruct Hbelow as [Hids Hp]. split; [ | cbn; lia ].
        unfold tree_insert. cbn [snd next_iid roots].
        assert (Forall (λ i, (i < S (next_iid t))%nat) (forest_ids (roots t))) as Hold.
        { eapply Forall_impl; [ exact Hids | ]. cbn. lia. }
        assert (Forall (λ i, (i < S (next_iid t))%nat)
                  (forest_ids [Node (next_iid t) tx cp [] v []])) as Hnew.
        { rewrite forest_ids_single. cbn. constructor; [ lia | constructor ]. }
        destruct parent as [ p | ].
        - rewrite (map_ext _ _ (add_child_graft p _)). by apply forest_ids_graft.
        - rewrite forest_ids_app. by apply Forall_app. }
      change (tree_insert parent tx cp v t)
        with (next_iid t, (tree_insert parent tx cp v t).2).
      cbv iota beta. rewrite (Hv _ _ _ Hb1).
      change (next_iid (tree_insert parent tx cp v t).2) with (S (next_iid t)).
      destruct (build v cp (S (next_iid t))) as [sub n1].
      destruct (graft_step parent tx cp v sub n1 t Hbelow Hsub) as [-> Hb2].
      rewrite (IHl _ Hb2 (S index)).
      change (next_iid (graft parent ([Node (next_iid t) tx cp [] v sub], n1) t)) with n1.
      destruct (build_indices build path (S index) l n1) as [rest n2].
      rewrite graft_graft; [ done | done | ].
      apply (build_step_range _ _ _ _ _ [] n1 n1); [ done | ].
      split; [ cbn; lia | constructor ].
  - cbn [populate_tree build]. revert t Hbelow.
    induction IH as [ | [k v] kvs Hv _ IHl ]; intros t Hbelow.
    + cbn. unfold graft. cbn. destruct t as [rs n]. cbn. f_equal.
      destruct parent as [ p | ]; [ | by rewrite List.app_nil_r ].
      rewrite <- (map_id rs) at 1. apply map_ext. intros n0.
      symmetry. clear. induction n0 as [i t v g s ch IH] using node_nested_ind.
      cbn. rewrite List.app_nil_r. f_equal.
      assert (map (graft_node p []) ch = ch) as ->.
      { rewrite <- (map_id ch) at 2. by apply map_ext_Forall. }
      by destruct (Nat.eqb i p).
    + cbn [each_entry build_entries]. cbn [snd] in Hv.
      set (cp := join_path path k).
      pose proof (build_range v cp (S (next_iid t))) as Hsub.
      assert (ids_below (Some (next_iid t)) (tree_insert parent k cp v t).2) as Hb1.
      { destruct Hbelow as [Hids Hp]. split; [ | cbn; lia ].
        unfold tree_insert. cbn [snd next_iid roots].
        assert (Forall (λ i, (i < S (next_iid t))%nat) (forest_ids (roots t))) as Hold.
        { eapply Forall_impl; [ exact Hids | ]. cbn. lia. }
        assert (Forall (λ i, (i < S (next_iid t))%nat)
                  (forest_ids [Node (next_iid t) k cp [] v []])) as Hnew.
        { rewrite forest_ids_single. cbn. constructor; [ lia | constructor ]. }
        destruct parent as [ p | ].
        - rewrite (map_ext _ _ (add_child_graft p _)). by apply forest_ids_graft.
        - rewrite forest_ids_app. by apply Forall_app. }
      change (tree_insert parent k cp v t)
        with (next_iid t, (tree_insert parent k cp v t).2).
      cbv iota beta. rewrite (Hv _ _ _ Hb1).
      change (next_iid (tree_insert parent k cp v t).2) with (S (next_iid t)).
      destruct (build v cp (S (next_iid t))) as [sub n1].
      destruct (graft_step parent k cp v sub n1 t Hbelow Hsub) as [-> Hb2].
      rewrite (IHl _ Hb2).
      change (next_iid (graft parent ([Node (next_iid t) k cp [] v sub], n1) t)) with n1.
      destruct (build_entries build path kvs n1) as [rest n2].
      rewrite graft_graft; [ done | done | ].
      apply (build_step_range _ _ _ _ _ [] n1 n1); [ done | ].
      split; [ cbn; lia | constructor ].
Qed.

End Refinement.

Section TreeShape.

(** After [load_json] the widget holds exactly the forest of the
    document built directly: inserting the items one by one under the id
    of their parent, as [populate_tree] does, puts every item where the
    structure of the document has it. *)
Lemma load_tree_build (old : treeview) (doc : json) :
  load_tree old doc
  = Treeview (build doc "" (next_iid old)).1 (build doc "" (next_iid old)).2.
Proof.
  unfold load_tree. rewrite populate_tree_graft.
  - done.
  - split; [ constructor | exact I ].
Qed.

Lemma item_count_build (data : json) (path : string) (next : nat) :
  length (flat_map subtree (build data path next).1) = item_count data.
Proof.
  revert path next.
  induction data as [ | b | z | r | s | l IH | kvs IH ] using json_nested_ind;
    intros path next; try done.
  - cbn [build item_count]. generalize 0%nat. revert next.
    induction IH as [ | v l Hv _ IHl ]; intros next index; [ done | ].
    cbn [build_indices map list_sum].
    specialize (Hv (join_path path (Py.str_int (Z.of_nat index))) (S next)).
    destruct (build v _ (S next)) as [sub n1].
    specialize (IHl n1 (S index)).
    destruct (build_indices build path (S index) l n1) as [rest n2].
    cbn [fst flat_map] in *. rewrite subtree_unfold. cbn [children].
    rewrite length_app. cbn [length]. rewrite Hv, IHl. done.
  - cbn [build item_count]. revert next.
    induction IH as [ | [k v] kvs Hv _ IHl ]; intros next; [ done | ].
    cbn [build_entries map list_sum snd]. cbn [snd] in Hv.
    specialize (Hv (join_path path k) (S next)).
    destruct (build v _ (S next)) as [sub n1].
    specialize (IHl n1).
    destruct (build_entries build path kvs n1) as [rest n2].
    cbn [fst flat_map] in *. rewrite subtree_unfold. cbn [children].
    rewrite length_app. cbn [length]. rewrite Hv, IHl. done.
Qed.

(** X7. No item is lost and none is added: the tree has one item for every
    key and every index of the document, at every depth, and one more
    for every primitive value. *)
Theorem load_tree_item_count (old : treeview) (doc : json) :
  length (items (load_tree old doc)) = item_count doc.
Proof. rewrite load_tree_build. apply item_count_build. Qed.




End TreeShape.

(** ** The preview of a primitive *)

Section Preview.
Import Str StrFacts.

Lemma length_app_string (a b : string) :
  String.length (a +:+ b) = (String.length a + String.length b)%nat.
Proof. induction a as [ | c a IH ]; simpl; [ done | ]. by rewrite IH. Qed.

Lemma take_spec (n : nat) (s : string) :
  (n ≤ String.length s)%nat →
  String.length (take n s) = n ∧ ∃ rest, s = take n s +:+ rest.
Proof.
  revert s. induction n as [ | n IH ]; intros s Hn.
  - split; [ done | ]. exists s. by destruct s.
  - destruct s as [ | c s ]; simpl in Hn; [ lia | ].
    destruct (IH s ltac:(lia)) as [Hlen [rest Hrest]]. simpl. split; [ by rewrite Hlen | ].
    exists rest. by rewrite <- Hrest.
Qed.

(** X9. A preview never has more than 50 characters: a text of at most 50
    characters is shown whole, a longer one is cut to its first 47
    characters followed by three dots. *)
Theorem preview_bounded (data : json) :
  (String.length (preview data) ≤ 50)%nat
  ∧ ((String.length (Py.str data) ≤ 50)%nat → preview data = Py.str data)
  ∧ ((50 < String.length (Py.str data))%nat →
     ∃ head rest, String.length head = 47%nat
                  ∧ Py.str data = head +:+ rest
                  ∧ preview data = head +:+ "...").
Proof.
  unfold preview.
  destruct (Nat.ltb_spec 50 (String.length (Py.str data))) as [ Hlong | Hshort ].
  - destruct (take_spec 47 (Py.str data) ltac:(lia)) as [Hlen [rest Hrest]].
    split; [ rewrite length_app_string, Hlen; simpl; lia | ].
    split; [ lia | ]. intros _. by exists (take 47 (Py.str data)), rest.
  - split; [ done | ]. split; [ done | lia ].
Qed.

End Preview.

(** ** More on path resolution *)

Section ResolutionMore.
Import Str StrFacts PyFacts.

Lemma getitem_outcomes (current : json) (k : Py.key) :
  (∃ v, Py.getitem current k = Ret v)
  ∨ Py.getitem current k = Raise KeyError
  ∨ Py.getitem current k = Raise IndexError
  ∨ Py.getitem current k = Raise TypeError.
Proof.
  destruct current as [ | b | z | r | s | l | kvs ], k as [ i | key ]; cbn; auto.
  - destruct (Py.str_item s i); eauto.
  - destruct (Py.list_item l i); eauto.
  - destruct (Py.dict_item key kvs); eauto.
Qed.

Lemma subscript_outcomes (current : json) (part : string) :
  (∃ v, subscript current part = Ret v)
  ∨ subscript current part = Raise KeyError
  ∨ subscript current part = Raise IndexError
  ∨ subscript current part = Raise TypeError.
Proof.
  unfold subscript. destruct (isdigit part) eqn:Hd; [ | apply getitem_outcomes ].
  destruct (int_isdigit part Hd) as [i [-> _]]. apply getitem_outcomes.
Qed.

Lemma walk_outcomes (current : json) (parts : list string) :
  (∃ v, walk current parts = Ret v) ∨ walk current parts = Raise TypeError.
Proof.
  revert current. induction parts as [ | part rest IH ]; intros current; cbn; [ eauto | ].
  destruct (nonempty part); [ | apply IH ].
  destruct (subscript_outcomes current part) as [ [v ->] | [ -> | [ -> | -> ] ] ]; eauto.
Qed.

(** X10. On a plain path [get_value_at_path] returns a value, [None]
    included, or raises [TypeError]: no other exception leaves it,
    whatever the document. *)
Theorem get_value_at_path_outcomes (doc : json) (path : string) :
  plain_path path = true →
  (∃ v, get_value_at_path doc path = Ret v)
  ∨ get_value_at_path doc path = Raise TypeError.
Proof.
  intros _. unfold get_value_at_path. destruct (nonempty path); [ apply walk_outcomes | eauto ].
Qed.

(** X11. Resolution composes: when a path reaches a value other than [None],
    resolving a longer path, the first joined to a second by [/], is
    resolving the second from that value. *)
Theorem get_value_at_path_compose (doc v : json) (p q : string) :
  get_value_at_path doc p = Ret v → v ≠ JNull →
  get_value_at_path doc (p +:+ "/" +:+ q) = get_value_at_path v q.
Proof.
  intros Hv Hnn. rewrite !get_value_at_path_parts in *.
  change ("/" +:+ q) with (String slash q).
  rewrite nonempty_parts_join. by apply walk_app.
Qed.



End ResolutionMore.

(** ** Selections that the pairing of the two arrays does not cover *)

Section RoutingMore.
Import Str StrFacts.



End RoutingMore.

(** ** More on the search *)

Section SearchMore.

Lemma get_all_items_below_forest (n : node) :
  get_all_items_below n ≡ₚ forest_ids (children n).
Proof.
  induction n as [i t v g s ch IH] using node_nested_ind.
  cbn [get_all_items_below children].
  induction IH as [ | c ch Hc _ IHch ]; [ done | ].
  cbn [map flat_map]. rewrite forest_ids_cons, <- List.app_comm_cons.
  apply Permutation_skip.
  rewrite Permutation_app_swap_app. by rewrite Hc, IHch.
Qed.

(** X15. [get_all_items] returns the id of every item of the tree, each
    exactly once. *)
Theorem get_all_items_all (t : treeview) : get_all_items t ≡ₚ iid <$> items t.
Proof.
  apply (get_all_items_below_forest (Node 0 "" "" [] JNull (roots t))).
Qed.

Lemma get_all_items_below_retag f (n : node) :
  get_all_items_below (retag f n) = get_all_items_below n.
Proof.
  induction n as [i t v g s ch IH] using node_nested_ind. cbn.
  rewrite map_map. f_equal.
  - apply map_ext. intros c. apply iid_retag.
  - induction IH as [ | c ch Hc _ IHch ]; [ done | ]. cbn. by rewrite Hc, IHch.
Qed.

Lemma get_all_items_retag_tree f (t : treeview) :
  get_all_items (retag_tree f t) = get_all_items t.
Proof.
  apply (get_all_items_below_retag f (Node 0 "" "" [] JNull (roots t))).
Qed.

Lemma retag_ext_on f h (n : node) :
  Forall (λ i, ∀ g, f i g = h i g) (forest_ids [n]) → retag f n = retag h n.
Proof.
  induction n as [i t v g s ch IH] using node_nested_ind.
  rewrite forest_ids_single. cbn [iid children]. intros [Hi Hch]%Forall_cons.
  cbn. rewrite Hi. f_equal. apply map_ext_Forall.
  induction IH as [ | c ch Hc _ IHch ]; [ done | ].
  rewrite forest_ids_cons in Hch.
  change (iid c :: forest_ids (children c) ++ forest_ids ch)
    with ((iid c :: forest_ids (children c)) ++ forest_ids ch) in Hch.
  apply Forall_app in Hch as [Hc' Hch]. constructor; [ | by apply IHch ].
  apply Hc. by rewrite forest_ids_single.
Qed.

Lemma retag_tree_ext_on f h (t : treeview) :
  Forall (λ i, ∀ g, f i g = h i g) (forest_ids (roots t)) →
  retag_tree f t = retag_tree h t.
Proof.
  unfold retag_tree. intros Hall. f_equal.
  induction (roots t) as [ | r rs IH ]; [ done | ].
  rewrite forest_ids_cons in Hall.
  change (iid r :: forest_ids (children r) ++ forest_ids rs)
    with ((iid r :: forest_ids (children r)) ++ forest_ids rs) in Hall.
  apply Forall_app in Hall as [Hr Hrs]. cbn [map]. rewrite IH by done. f_equal.
  apply retag_ext_on. by rewrite forest_ids_single.
Qed.

(** X16. Every search starts afresh: the tags after a search depend on the
    last query only, not on the searches made before. *)
Theorem on_search_change_forgets (q q' : string) (t : treeview) :
  on_search_change q (on_search_change q' t) = on_search_change q t.
Proof.
  rewrite (on_search_change_retag q' t).
  generalize (λ (j : nat) (g : list string),
    if Str.nonempty (Str.lower q')
    then mark (hits (Str.lower q') (roots t)) j (untag (get_all_items t) j g)
    else untag (get_all_items t) j g).
  intros G.
  rewrite (on_search_change_retag q), (on_search_change_retag q t).
  rewrite get_all_items_retag_tree. cbn [roots retag_tree]. rewrite hits_retag.
  rewrite retag_tree_retag_tree. apply retag_tree_ext_on.
  apply Forall_forall. intros i Hi g.
  assert (untag (get_all_items t) i (G i g) = untag (get_all_items t) i g) as Hun.
  { unfold untag. rewrite bool_decide_eq_true_2; [ done | ].
    apply list_elem_of_fmap in Hi as [n [-> Hn]]. by apply get_all_items_complete. }
  by rewrite Hun.
Qed.

End SearchMore.

(** ** Selecting a document, then saving it *)

Section SelectSave.
Context `{Libs}.





End SelectSave.

(** ** Documents encoded by [pdf_to_base64] *)

Section Encoding.
Context `{Libs} `{Encoder}.


End Encoding.

(** ** The page state after a PDF is rendered *)

Section PdfRender.
Context `{Libs}.

(** X19. After [render_document] has opened a PDF the viewer is on its first
    page and the document tab is selected; the label reads [Page: 1/N]
    when the PDF has pages, and a PDF without pages is reported by
    [show_current_page], the label staying as it was. *)
Theorem pdf_render_page_state (base64_data : json) (name : string)
    (data : bytes) (pages : Z) (st : app) :
  decode base64_data = Ret data →
  Str.lower (splitext_ext name) = ".pdf" →
  fitz_open data = Ret pages →
  let st' := render_document base64_data (JString name) st in
  current_document st' = FitzDocument data pages
  ∧ current_page st' = 0 ∧ total_pages st' = pages
  ∧ notebook_tab st' = 1%nat
  ∧ (0 < pages →
       page_label st' = "Page: 1/" +:+ Py.str_int pages ∧ dialogs st' = dialogs st)
  ∧ (pages ≤ 0 →
       page_label st' = page_label st
       ∧ dialogs st' = dialogs st ++ [ShowError "Error" "Failed to show page: " IndexError]).
Proof.
  intros Hdata Hext Hopen st'. subst st'. unfold render_document.
  rewrite Hdata. cbn. rewrite Hext.
  rewrite bool_decide_eq_false_2.
  2:{ intros Hin. repeat (apply elem_of_cons in Hin as [ Hin | Hin ]; [ discriminate | ]).
      by apply elem_of_nil in Hin. }
  cbn [String.eqb Ascii.eqb Bool.eqb].
  unfold render_pdf, read_file. cbn. rewrite lookup_insert_eq. cbn. rewrite Hopen. cbn.
  unfold show_current_page. cbn.
  destruct (Z.ltb_spec 0 pages); cbn; repeat (split; [ done | ]); split; intros; try lia; done.
Qed.

End PdfRender.

(** ** No scratch file is left behind *)

Section Exit.
Context `{Libs}.

Lemma render_document_accounted disk saved (base64_data filename : json) (st : app) :
  accounted disk saved st → accounted disk saved (render_document base64_data filename st).
Proof.
  intros Hst q Hq.
  pose proof (render_document_scratch base64_data filename st) as Hs. cbv zeta in Hs.
  destruct (cleanup_temp_files_spec st) as [_ Hclean].
  assert (is_Some (files (cleanup_temp_files st) !! q) →
          is_Some (disk !! q) ∨ q ∈ saved) as Hold.
  { rewrite Hclean. case_bool_decide as Hin; [ by intros [? ?] | ].
    intros Hsome. destruct (Hst q Hsome) as [ ? | [ ? | ? ] ]; tauto. }
  assert (∀ fs tf, files (render_document base64_data filename st) = fs →
            temp_files (render_document base64_data filename st) = tf →
            (fs = files (cleanup_temp_files st)
             ∨ ∃ p data, tf = [p] ∧ fs = <[p := data]> (files (cleanup_temp_files st))) →
            is_Some (disk !! q) ∨ q ∈ saved
            ∨ q ∈ temp_files (render_document base64_data filename st)) as Hcases.
  { intros fs tf Hfs Htf [ -> | [p [data [-> ->]]] ].
    - rewrite Hfs in Hq. destruct (Hold Hq); tauto.
    - rewrite Hfs in Hq. rewrite Htf. destruct (decide (q = p)) as [ -> | Hne ].
      + right. right. apply list_elem_of_singleton. done.
      + rewrite lookup_insert_ne in Hq by done. destruct (Hold Hq); tauto. }
  set (st' := render_document base64_data filename st) in *. clearbody st'.
  destruct (decode base64_data) as [ data | e ];
    [ destruct filename as [ | | | | name | | ] | ];
    try (destruct Hs as [Htf Hfs]; by apply (Hcases _ _ Hfs Htf); left).
  destruct Hs as [Htf Hfs]. apply (Hcases _ _ Hfs Htf). right. by eexists _, _.
Qed.

Lemma handle_accounted disk saved (e : event) (st : app) :
  accounted disk saved st → accounted disk (saved ++ save_paths [e]) (handle e st).
Proof.
  intros Hst.
  assert (∀ st', files st' = files st → temp_files st' = temp_files st →
            accounted disk (saved ++ save_paths [e]) st') as Hsame.
  { intros st' Hf Ht q. rewrite Hf, Ht. intros Hq.
    destruct (Hst q Hq) as [ ? | [ ? | ? ] ]; [ tauto | | tauto ].
    right. left. apply elem_of_app. by left. }
  destruct e as [ [ doc | e ] | path | search_var | | | save_path ]; cbn [handle].
  - by apply Hsame.
  - by apply Hsame.
  - unfold on_tree_select.
    destruct (resolve_selection _ _) as [ [ | b f | v ] | e ]; cbn; try (by apply Hsame).
    cbn [save_paths flat_map]. rewrite List.app_nil_r.
    by apply render_document_accounted.
  - by apply Hsame.
  - unfold prev_page. destruct (current_document st); try (by apply Hsame).
    destruct (0 <? current_page st); [ | by apply Hsame ].
    by destruct (show_current_page_scratch
      (with_pages (current_page st - 1) (total_pages st) st)) as [Ht Hf]; apply Hsame.
  - unfold next_page. destruct (current_document st); try (by apply Hsame).
    destruct (current_page st <? total_pages st - 1); [ | by apply Hsame ].
    by destruct (show_current_page_scratch
      (with_pages (current_page st + 1) (total_pages st) st)) as [Ht Hf]; apply Hsame.
  - destruct (save_current_document_changes save_path st) as [fs [dl [-> Hfs]]].
    destruct Hfs as [ -> | [data ->] ]; [ by apply Hsame | ].
    intros q. cbn [files temp_files save_paths flat_map]. intros Hq.
    destruct (decide (q = save_path)) as [ -> | Hne ].
    + right. left. apply elem_of_app. right. by left.
    + rewrite lookup_insert_ne in Hq by done.
      destruct (Hst q Hq) as [ ? | [ ? | ? ] ]; [ tauto | | tauto ].
      right. left. apply elem_of_app. by left.
Qed.

Lemma run_accounted disk (events : list event) saved (st : app) :
  accounted disk saved st → accounted disk (saved ++ save_paths events) (run events st).
Proof.
  revert saved st. induction events as [ | e events IH ]; intros saved st Hst.
  - cbn. by rewrite List.app_nil_r.
  - assert (save_paths (e :: events) = save_paths [e] ++ save_paths events) as ->
      by (unfold save_paths; cbn [flat_map]; by rewrite List.app_nil_r).
    rewrite List.app_assoc. apply IH. by apply handle_accounted.
Qed.

(** X20. Whatever the user did, after [cleanup_and_exit] every file on the
    disk was there when the explorer started or is the destination of a
    save: no scratch file is left behind. *)
Theorem exit_leaves_no_scratch_file (events : list event) (disk : gmap string bytes) :
  dom (files (cleanup_and_exit (run events (initial disk))))
    ⊆ dom disk ∪ list_to_set (save_paths events).
Proof.
  assert (accounted disk [] (initial disk)) as Hinit by (intros q Hq; by left).
  apply (run_accounted disk events) in Hinit. rewrite List.app_nil_l in Hinit.
  apply elem_of_subseteq. intros q Hq%elem_of_dom.
  unfold cleanup_and_exit in Hq.
  destruct (cleanup_temp_files_spec (run events (initial disk))) as [_ Hclean].
  rewrite Hclean in Hq. apply elem_of_union.
  destruct (bool_decide_reflect (q ∈ temp_files (run events (initial disk)))) as [ Hin | Hout ];
    [ by destruct Hq | ].
  destruct (Hinit q Hq) as [ Hd | [ Hs | Ht ] ]; [ | | done ].
  - left. by apply elem_of_dom.
  - right. by apply elem_of_list_to_set.
Qed.

End Exit.

(** ** Examples *)

Section MoreExamples.

Lemma next_page_iterated_witness :
  current_page (Nat.iter 5 next_page after_pdf) = 2
  ∧ next_page (Nat.iter 5 next_page after_pdf) = Nat.iter 5 next_page after_pdf.
Proof.
  destruct (next_page_iterated after_pdf [Byte.x44; Byte.x45; Byte.x46] 3 5
              eq_refl eq_refl eq_refl ltac:(lia)) as [Hpage Hlast].
  split; [ exact Hpage | ]. apply Hlast. lia.
Defined.

Lemma prev_next_round_trip_witness :
  prev_page (next_page after_pdf) = after_pdf
  ∧ next_page (prev_page (next_page after_pdf)) = next_page after_pdf.
Proof.
  split.
  - refine (proj1 (prev_next_round_trip after_pdf [Byte.x44; Byte.x45; Byte.x46] 3 _ _ _) _).
    + vm_compute. reflexivity.
    + vm_compute. reflexivity.
    + vm_compute. reflexivity.
    + vm_compute. split; [ discriminate | reflexivity ].
  - refine (proj2 (prev_next_round_trip (next_page after_pdf)
                     [Byte.x44; Byte.x45; Byte.x46] 3 _ _ _) _).
    + vm_compute. reflexivity.
    + vm_compute. reflexivity.
    + vm_compute. reflexivity.
    + vm_compute. split; reflexivity.
Defined.

Lemma save_truncates_on_decode_error_witness :
  files (@save_current_document sample_libs "/tmp/tmp0.pdf" reloaded_broken)
    !! "/tmp/tmp0.pdf" = Some []
  ∧ files reloaded_broken !! "/tmp/tmp0.pdf" = Some [Byte.x44; Byte.x45; Byte.x46].
Proof.
  destruct (@save_truncates_on_decode_error sample_libs "/tmp/tmp0.pdf" reloaded_broken
              [ ("nombre_documentos", JArray [JString "b.pdf"]);
                ("lista_documentos", JArray [JString "%%%%"]) ]
              [JString "b.pdf"] [JString "%%%%"] 0%nat (JString "%%%%")
              (OtherError "binascii.Error")
              eq_refl eq_refl eq_refl eq_refl eq_refl eq_refl eq_refl eq_refl)
    as [-> _].
  split; [ apply lookup_insert_eq | reflexivity ].
Defined.

Lemma get_value_at_path_outcomes_witness :
  (∃ v, get_value_at_path scenario "meta/x" = Ret v)
  ∨ get_value_at_path scenario "meta/x" = Raise TypeError.
Proof. apply get_value_at_path_outcomes. reflexivity. Defined.

Lemma get_value_at_path_compose_witness :
  get_value_at_path scenario "meta/x" = get_value_at_path (JObject [("x", JInt 1)]) "x".
Proof.
  apply (get_value_at_path_compose scenario (JObject [("x", JInt 1)]) "meta" "x").
  - reflexivity.
  - discriminate.
Defined.






Lemma pdf_render_page_state_witness :
  current_page after_pdf = 0 ∧ total_pages after_pdf = 3
  ∧ page_label after_pdf = "Page: 1/3".
Proof.
  destruct (@pdf_render_page_state sample_libs (JString "REVG") "b.pdf"
              [Byte.x44; Byte.x45; Byte.x46] 3 after_image eq_refl eq_refl eq_refl)
    as [_ [Hpage [Htotal [_ [Hlabel _]]]]].
  split; [ exact Hpage | ]. split; [ exact Htotal | ]. apply Hlabel. lia.
Defined.

End MoreExamples.
